(** * Lightning sensor (AS3935 on an ESP32-C3): event history, capture loop and
    query handlers of [src/src/main.cpp], as a shallow embedding.

    Conventions of the embedding.
    - [time_t] values are mathematical integers ([Z]); the program only
      compares and subtracts them.
    - [uint8_t] and [uint32_t] values are [Z] with the conversion written out
      ([to_uint8], [to_uint32]) wherever the program converts or wraps.
    - [std::deque<LightningEvent>] is a [list], front of the deque first.
    - The globals of the program are the fields of [State]; every function
      that writes a global returns the new [State]. *)

From Stdlib Require Import String Ascii DecimalString.
From Stdlib Require Import ZArith List Bool Lia.
From Stdlib Require Import Sorting.Sorted Sorting.Permutation.
Import ListNotations.

Local Open Scope Z_scope.

(** ** Fixed-width integers *)

Definition to_uint8 (x : Z) : Z := x mod 2 ^ 8.
Definition to_uint32 (x : Z) : Z := x mod 2 ^ 32.

Definition is_uint8 (x : Z) : Prop := 0 <= x < 2 ^ 8.
Definition is_uint32 (x : Z) : Prop := 0 <= x < 2 ^ 32.

(** ** Data structures *)

(** [struct LightningEvent]. *)
Record LightningEvent : Type := mkEvent {
  ts : Z;          (* time_t ts *)
  distance : Z;    (* uint8_t distance *)
  energy : Z;      (* uint32_t energy *)
  event : Z;       (* uint32_t event *)
  irq : bool       (* bool irq *)
}.

(** [static const size_t HISTORY_MAX = 2000;] *)
Definition HISTORY_MAX : nat := 2000.

(** The four indicator pins LED1..LED4, [true] for HIGH. *)
Record Leds : Type := mkLeds { l1 : bool; l2 : bool; l3 : bool; l4 : bool }.

Definition all_off : Leds := mkLeds false false false false.

(** The globals of [main.cpp] that the capture loop and the handlers use. *)
Record State : Type := mkState {
  history : list LightningEvent;   (* static std::deque<LightningEvent> history *)
  lastDistance : Z;                (* static uint8_t lastDistance = 63 *)
  lastEnergy : Z;                  (* static uint32_t lastEnergy = 0 *)
  lastEventTs : Z;                 (* static time_t lastEventTs = 0 *)
  lastEvent : Z;                   (* static uint8_t lastEvent = 0 *)
  AS3935_started : bool;
  AS3935_irq : bool;
  irqFlag : bool;                  (* volatile bool irqFlag, set by the ISR *)
  tLastPoll : Z;                   (* static uint32_t tLastPoll = 0 *)
  leds : Leds                      (* levels last written to LED1..LED4 *)
}.

(** The globals as their initialisers leave them, the LEDs as
    [setLedsForDistance(63)] in [setup] leaves them. *)
Definition initial_state (started : bool) : State :=
  mkState [] 63 0 0 0 started false false 0 all_off.

(** ** The history deque *)

(** [history.pop_front()]; the program calls it on a non-empty deque only. *)
Definition pop_front (h : list LightningEvent) : list LightningEvent := tl h.

(** [while (!history.empty() && history.front().ts < cutoff) history.pop_front();] *)
Fixpoint trimHistoryOlderThan (cutoff : Z) (h : list LightningEvent)
  : list LightningEvent :=
  match h with
  | [] => []
  | e :: rest =>
      if ts e <? cutoff then trimHistoryOlderThan cutoff rest else h
  end.

(** The two statements both capture paths of [loop] use to record an event:
    [if (history.size() >= HISTORY_MAX) history.pop_front();
     history.push_back(e);], with the bound as a parameter. *)
Definition history_append_max (hmax : nat) (e : LightningEvent)
  (h : list LightningEvent) : list LightningEvent :=
  (if (hmax <=? length h)%nat then pop_front h else h) ++ [e].

Definition history_append : LightningEvent -> list LightningEvent -> list LightningEvent :=
  history_append_max HISTORY_MAX.

(** A sequence of appends, oldest first. *)
Definition history_appends_max (hmax : nat) (es : list LightningEvent)
  (h : list LightningEvent) : list LightningEvent :=
  fold_left (fun acc e => history_append_max hmax e acc) es h.

Definition history_appends : list LightningEvent -> list LightningEvent -> list LightningEvent :=
  history_appends_max HISTORY_MAX.

(** Insertion order is time order: timestamps never decrease front to back. *)
Definition ts_le (a b : LightningEvent) : Prop := ts a <= ts b.
Definition time_ordered (h : list LightningEvent) : Prop := Sorted ts_le h.

(** ** The LED indicator *)

(** [setLedsForDistance]: the [switch] on [km], then the four [digitalWrite]s.
    Every [case] starts from [l1=l2=l3=l4=false]; a value with no [case]
    leaves them so. *)
Definition setLedsForDistance (km : Z) : Leds :=
  match km with
  | 63 => mkLeds false false false false
  | 40 => mkLeds true false false false
  | 37 => mkLeds false true false false
  | 34 => mkLeds true true false false
  | 31 => mkLeds false false true false
  | 27 => mkLeds true false true false
  | 24 => mkLeds false true true false
  | 20 => mkLeds true true true false
  | 17 => mkLeds false false false true
  | 14 => mkLeds true false false true
  | 12 => mkLeds false true false true
  | 10 => mkLeds true true false true
  | 8 => mkLeds false false true true
  | 6 => mkLeds true false true true
  | 5 => mkLeds false true true true
  | 1 => mkLeds true true true true
  | _ => mkLeds false false false false
  end.

(** The [case] labels of the [switch]. *)
Definition led_keys : list Z :=
  [1; 5; 6; 8; 10; 12; 14; 17; 20; 24; 27; 31; 34; 37; 40; 63].

(** ** The capture loop *)

(** What one pass of [loop] reads from outside, in the order of the calls. *)
Record CycleEnv : Type := mkEnv {
  env_now : Z;           (* time(nullptr) *)
  env_isr_early : bool;  (* the ISR runs between [AS3935_irq = irqFlag] and [if (irqFlag)] *)
  env_intSrc : Z;        (* lightning.readInterruptReg(), an [int] *)
  env_dist_irq : Z;      (* lightning.distanceToStorm() in the interrupt branch *)
  env_energy_irq : Z;    (* lightning.lightningEnergy() in the interrupt branch *)
  env_millis_check : Z;  (* millis() in [millis() - tLastPoll > 10000] *)
  env_millis_stamp : Z;  (* millis() in [tLastPoll = millis()] *)
  env_dist_poll : Z;     (* lightning.distanceToStorm() in the poll branch *)
  env_energy_poll : Z    (* lightning.lightningEnergy() in the poll branch *)
}.

(** [void IRAM_ATTR onAs3935Interrupt() { irqFlag = true; }] *)
Definition onAs3935Interrupt (s : State) : State :=
  mkState (history s) (lastDistance s) (lastEnergy s) (lastEventTs s)
    (lastEvent s) (AS3935_started s) (AS3935_irq s) true (tLastPoll s) (leds s).

(** [trimHistoryOlderThan(now - 24*3600); AS3935_irq = irqFlag;] *)
Definition loop_trim (env : CycleEnv) (s : State) : State :=
  mkState (trimHistoryOlderThan (env_now env - 24 * 3600) (history s))
    (lastDistance s) (lastEnergy s) (lastEventTs s) (lastEvent s)
    (AS3935_started s) (irqFlag s) (irqFlag s) (tLastPoll s) (leds s).

(** The value [if (irqFlag)] reads: the flag as it was at the snapshot, or set
    by the ISR since. *)
Definition irq_observed (env : CycleEnv) (s : State) : bool :=
  irqFlag s || env_isr_early env.

(** The record the interrupt branch pushes:
    [{now, dist, energy, lastEvent, AS3935_irq}] after [lastEvent = intSrc]. *)
Definition irq_record (env : CycleEnv) (s : State) : LightningEvent :=
  mkEvent (env_now env) (to_uint8 (env_dist_irq env))
    (to_uint32 (env_energy_irq env)) (to_uint8 (env_intSrc env)) (AS3935_irq s).

(** The body of [if (irqFlag) { ... }]: the flag is cleared, [lastEvent] takes
    the interrupt source, and a nonzero source is recorded. The [else if]
    arms only print. *)
Definition loop_irq_branch (env : CycleEnv) (s : State) : State :=
  let intSrc := env_intSrc env in
  if intSrc =? 0 then
    mkState (history s) (lastDistance s) (lastEnergy s) (lastEventTs s)
      (to_uint8 intSrc) (AS3935_started s) (AS3935_irq s) false
      (tLastPoll s) (leds s)
  else
    let dist := to_uint8 (env_dist_irq env) in
    let energy := to_uint32 (env_energy_irq env) in
    mkState (history_append (irq_record env s) (history s))
      dist energy (env_now env) (to_uint8 intSrc)
      (AS3935_started s) (AS3935_irq s) false (tLastPoll s)
      (setLedsForDistance dist).

(** [loop] up to the end of the [if (irqFlag)] statement. *)
Definition loop_irq (env : CycleEnv) (s : State) : State :=
  let s1 := loop_trim env s in
  if irq_observed env s then loop_irq_branch env s1 else s1.

(** [millis() - tLastPoll > 10000], in [uint32_t] arithmetic. *)
Definition poll_due (env : CycleEnv) (s : State) : bool :=
  10000 <? to_uint32 (env_millis_check env - tLastPoll s).

(** The record the poll branch pushes: [{now, dist, energy, lastEvent, AS3935_irq}]. *)
Definition poll_record (env : CycleEnv) (s : State) : LightningEvent :=
  mkEvent (env_now env) (to_uint8 (env_dist_poll env))
    (to_uint32 (env_energy_poll env)) (lastEvent s) (AS3935_irq s).

(** [if (millis() - tLastPoll > 10000) { if (lastEvent>0) { ... } }] *)
Definition loop_poll (env : CycleEnv) (s : State) : State :=
  if poll_due env s then
    if 0 <? lastEvent s then
      let dist := to_uint8 (env_dist_poll env) in
      let energy := to_uint32 (env_energy_poll env) in
      mkState (history_append (poll_record env s) (history s))
        dist energy (lastEventTs s) 0
        (AS3935_started s) (AS3935_irq s) (irqFlag s)
        (to_uint32 (env_millis_stamp env)) (setLedsForDistance dist)
    else s
  else s.

(** [void loop()]. [server.handleClient()] runs the handlers below, which
    read the globals and write none. *)
Definition loop (env : CycleEnv) (s : State) : State :=
  loop_poll env (loop_irq env s).

(** A run of the firmware after [setup]: passes of [loop], and the ISR
    between them. *)
Inductive Step : Type :=
| Cycle (env : CycleEnv)
| Interrupt.

Definition step (s : State) (x : Step) : State :=
  match x with
  | Cycle env => loop env s
  | Interrupt => onAs3935Interrupt s
  end.

Definition run (s : State) (xs : list Step) : State := fold_left step xs s.

(** ** Library functions the handlers call *)

(** [isspace] of the C locale. *)
Definition isspace (c : ascii) : bool :=
  let n := nat_of_ascii c in
  (n =? 32)%nat || ((9 <=? n)%nat && (n <=? 13)%nat).

Definition digit_of (c : ascii) : option Z :=
  let n := Z.of_nat (nat_of_ascii c) in
  if (48 <=? n) && (n <=? 57) then Some (n - 48) else None.

Fixpoint skip_space (s : string) : string :=
  match s with
  | String c rest => if isspace c then skip_space rest else s
  | EmptyString => s
  end.

(** The value of the leading run of decimal digits of [s]. *)
Fixpoint digits_value (acc : Z) (s : string) : Z :=
  match s with
  | String c rest =>
      match digit_of c with
      | Some d => digits_value (10 * acc + d) rest
      | None => acc
      end
  | EmptyString => acc
  end.

Definition starts_with_digit (s : string) : bool :=
  match s with
  | String c _ => match digit_of c with Some _ => true | None => false end
  | EmptyString => false
  end.

(** [long] of the ESP32-C3 (ILP32). *)
Definition LONG_MAX : Z := 2 ^ 31 - 1.
Definition LONG_MIN : Z := - 2 ^ 31.

(** The sign and the rest, after leading white space. *)
Definition split_sign (s : string) : bool * string :=
  match skip_space s with
  | String "-"%char rest => (true, rest)
  | String "+"%char rest => (false, rest)
  | s' => (false, s')
  end.


(** [String::toInt()] of the Arduino core, which is [atol] of the buffer:
    leading white space, an optional sign, then decimal digits up to the
    first other character; 0 when the string does not start with an integer;
    out-of-range values stop at [LONG_MAX] / [LONG_MIN] as [strtol] does. *)
Definition String_toInt (s : string) : Z :=
  let '(neg, body) := split_sign s in
  if starts_with_digit body then
    let v := digits_value 0 body in
    if neg then Z.max LONG_MIN (- v) else Z.min LONG_MAX v
  else 0.

Definition dec (n : Z) : string := NilZero.string_of_int (Z.to_int n).

Definition pad2 (n : Z) : string :=
  ((if (n <? 10)%Z then "0" else "") ++ dec n)%string.

Definition pad4 (n : Z) : string :=
  ((if (n <? 10)%Z then "000" else if (n <? 100)%Z then "00"
    else if (n <? 1000)%Z then "0" else "") ++ dec n)%string.

(** Year, month and day of a day count since 1970-01-01 in the proleptic
    Gregorian calendar, as [gmtime_r] computes them. *)
Definition civil_from_days (days : Z) : Z * Z * Z :=
  let z := days + 719468 in
  let era := z / 146097 in
  let doe := z - era * 146097 in
  let yoe := (doe - doe / 1460 + doe / 36524 - doe / 146096) / 365 in
  let doy := doe - (365 * yoe + yoe / 4 - yoe / 100) in
  let mp := (5 * doy + 2) / 153 in
  let d := doy - (153 * mp + 2) / 5 + 1 in
  let m := if mp <? 10 then mp + 3 else mp - 9 in
  let y := yoe + era * 400 + (if m <=? 2 then 1 else 0) in
  (y, m, d).

(** [tsToIso8601]: [gmtime_r] then [strftime] with
    ["%Y-%m-%dT%H:%M:%SZ"], for the years 0 to 9999. *)
Definition tsToIso8601 (t : Z) : string :=
  let '(y, m, d) := civil_from_days (t / 86400) in
  let secs := t mod 86400 in
  (pad4 y ++ "-" ++ pad2 m ++ "-" ++ pad2 d ++ "T" ++
   pad2 (secs / 3600) ++ ":" ++ pad2 (secs mod 3600 / 60) ++ ":" ++
   pad2 (secs mod 60) ++ "Z")%string.

(** [String(value, BIN)] of an unsigned value: binary digits, no leading
    zeros, ["0"] for zero. *)
Fixpoint binary_digits (p : positive) : string :=
  match p with
  | xH => "1"
  | xO q => binary_digits q ++ "0"
  | xI q => binary_digits q ++ "1"
  end%string.

Definition String_bin (v : Z) : string :=
  match v with
  | Zpos p => binary_digits p
  | _ => "0"%string
  end.

(** ** The query handlers *)

(** The query arguments of a request, [None] when [server.hasArg] is false. *)
Record Request : Type := mkRequest {
  arg_since : option string;
  arg_range : option string
}.

(** [server.arg(name)]: the value, or the empty string when absent. *)
Definition server_arg (a : option string) : string :=
  match a with
  | Some v => v
  | None => EmptyString
  end.

(** One element of the ["events"] array of [handleEvents]. *)
Record JsonEvent : Type := mkJsonEvent {
  j_ts : Z;
  j_iso : string;
  j_distance_km : Z;
  j_energy : Z;
  j_event : Z;
  j_irq : bool
}.

Definition json_of_event (e : LightningEvent) : JsonEvent :=
  mkJsonEvent (ts e) (tsToIso8601 (ts e)) (distance e) (energy e) (event e) (irq e).

(** [long sinceSec = 3600; if (server.hasArg("since")) { sinceSec =
    server.arg("since").toInt(); if (sinceSec <= 0) sinceSec = 3600; }] *)
Definition handleEvents_sinceSec (r : Request) : Z :=
  match arg_since r with
  | Some a =>
      let sinceSec := String_toInt a in
      if sinceSec <=? 0 then 3600 else sinceSec
  | None => 3600
  end.

(** [DynamicJsonDocument doc(32768);], the document [handleEvents] builds
    its answer in. *)
Definition EVENTS_DOC_BYTES : nat := 32768.

(** The pool of an ArduinoJson 6 document (the API [handleEvents] is written
    in) on the 32-bit target: every array element and every object member
    takes one slot of 16 bytes, and a [String] value is copied into the pool
    with its terminator. *)
Definition JSON_SLOT_BYTES : nat := 16.

(** One element of ["events"]: its slot in the array, the slots of its six
    members, and the 21 bytes of its [iso] string. *)
Definition EVENT_ELEMENT_BYTES : nat := 7 * JSON_SLOT_BYTES + 21.

(** The whole elements the document holds beside the slot of the ["events"]
    member itself: 246. *)
Definition events_room : nat :=
  (EVENTS_DOC_BYTES - JSON_SLOT_BYTES) / EVENT_ELEMENT_BYTES.

(** The body of [for (auto it = history.rbegin(); it != history.rend(); ++it)]
    over the deque read back to front, with [room] elements left in the
    document: [break] at the first entry older than the cutoff; before it,
    one array element per entry while the pool lasts. Once the pool is used
    up [createNestedObject] yields a null object, the assignments to it do
    nothing and the array stays as it is, while the loop runs on to its
    [break]. The pool is counted in whole elements. *)
Fixpoint events_from_back (room : nat) (cutoff : Z)
  (back_to_front : list LightningEvent) : list JsonEvent :=
  match back_to_front with
  | [] => []
  | e :: rest =>
      if ts e <? cutoff then []
      else
        match room with
        | O => events_from_back O cutoff rest
        | S room' => json_of_event e :: events_from_back room' cutoff rest
        end
  end.

(** [handleEvents]: the ["events"] array of the response, and the globals
    after the call. *)
Definition handleEvents (r : Request) (now : Z) (s : State)
  : list JsonEvent * State :=
  let cutoff := now - handleEvents_sinceSec r in
  (events_from_back events_room cutoff (rev (history s)), s).

(** The five counters of [handleStats], all [uint32_t]. *)
Record Counters : Type := mkCounters {
  c_cnt : Z; c_near : Z; c_mid : Z; c_far : Z; c_oor : Z
}.

Definition incr (x : Z) : Z := to_uint32 (x + 1).

(** One pass of the body of [for (const auto &e : history)]. *)
Definition stats_step (cutoff : Z) (c : Counters) (e : LightningEvent) : Counters :=
  if ts e <? cutoff then c
  else
    let cnt := incr (c_cnt c) in
    if distance e =? 63 then
      mkCounters cnt (c_near c) (c_mid c) (c_far c) (incr (c_oor c))
    else if distance e <=? 5 then
      mkCounters cnt (incr (c_near c)) (c_mid c) (c_far c) (c_oor c)
    else if distance e <=? 15 then
      mkCounters cnt (c_near c) (incr (c_mid c)) (c_far c) (c_oor c)
    else
      mkCounters cnt (c_near c) (c_mid c) (incr (c_far c)) (c_oor c).

Definition stats_scan (cutoff : Z) (h : list LightningEvent) : Counters :=
  fold_left (stats_step cutoff) h (mkCounters 0 0 0 0 0).

(** [long sinceSec = (range == "day") ? 24*3600 : 3600;] *)
Definition handleStats_sinceSec (r : Request) : Z :=
  if String.eqb (server_arg (arg_range r)) "day" then 24 * 3600 else 3600.

(** The JSON document of [handleStats]. *)
Record StatsDoc : Type := mkStatsDoc {
  range_s : Z;
  count : Z;
  near_le_5km : Z;      (* buckets["near_<=5km"] *)
  mid_6_15km : Z;       (* buckets["mid_6-15km"] *)
  far_gt_15km : Z;      (* buckets[">15km"] *)
  out_of_range : Z      (* buckets["out_of_range"] *)
}.

Definition handleStats (r : Request) (now : Z) (s : State) : StatsDoc * State :=
  let sinceSec := handleStats_sinceSec r in
  let c := stats_scan (now - sinceSec) (history s) in
  (mkStatsDoc sinceSec (c_cnt c) (c_near c) (c_mid c) (c_far c) (c_oor c), s).

(** The JSON document of [handleLive]. *)
Record LiveDoc : Type := mkLiveDoc {
  ip : string;
  last_distance_km : Z;
  last_energy : Z;
  last_event_ts : Z;
  last_event_string : string;
  last_event_iso : string;
  last_event_trigger : string;
  uptime_s : Z;
  started : string;
  live_l1 : bool; live_l2 : bool; live_l3 : bool; live_l4 : bool
}.

(** The name [handleLive] gives an interrupt source. *)
Definition lastEventString (ev : Z) : string :=
  ((if (ev =? 0)%Z then "Kein"
    else if (ev =? 1)%Z then "Rauschen"
    else if (ev =? 4)%Z then "Störer"
    else if (ev =? 8)%Z then "Blitz"
    else "")
   ++ " :: Wert binär =" ++ String_bin ev)%string.

(** [handleLive], given [WiFi.localIP().toString()] and [millis()]. *)
Definition handleLive (localIP : string) (millis : Z) (s : State)
  : LiveDoc * State :=
  (mkLiveDoc localIP (lastDistance s) (lastEnergy s) (lastEventTs s)
     (lastEventString (lastEvent s))
     (if lastEventTs s =? 0 then EmptyString else tsToIso8601 (lastEventTs s))
     (if AS3935_irq s then "Interrupt" else "Polling")
     (to_uint32 (millis / 1000))
     (if AS3935_started s then "Ja, I2C Up" else "Nein, I2C Down")
     (l1 (leds s)) (l2 (leds s)) (l3 (leds s)) (l4 (leds s)),
   s).

(** ** Specification-side vocabulary *)

(** An entry is inside a window when it is not older than the cutoff. *)
Definition in_window (cutoff : Z) (e : LightningEvent) : bool := cutoff <=? ts e.

(** The entries a window keeps, in storage order. *)
Definition window_entries (cutoff : Z) (h : list LightningEvent) : list LightningEvent :=
  filter (in_window cutoff) h.


(** The four distance buckets of the statistics, as the specification words
    them: out of range when the distance is 63, else near up to 5, else mid
    up to 15, else far. *)
Inductive Bucket : Type := OutOfRange | Near | Mid | Far.

Definition spec_bucket (d : Z) : Bucket :=
  if d =? 63 then OutOfRange
  else if d <=? 5 then Near
  else if d <=? 15 then Mid
  else Far.

Definition Bucket_eqb (a b : Bucket) : bool :=
  match a, b with
  | OutOfRange, OutOfRange | Near, Near | Mid, Mid | Far, Far => true
  | _, _ => false
  end.

(** How many entries of the window fall in bucket [b]. *)
Definition bucket_count (b : Bucket) (cutoff : Z) (h : list LightningEvent) : Z :=
  Z.of_nat (length (filter (fun e => Bucket_eqb (spec_bucket (distance e)) b)
                      (window_entries cutoff h))).

(** The elements the loop of [handleEvents] asks the document for: one for
    every entry it reaches, back to front, before its [break]. *)
Fixpoint elements_wanted (cutoff : Z) (back_to_front : list LightningEvent)
  : list JsonEvent :=
  match back_to_front with
  | [] => []
  | e :: rest =>
      if ts e <? cutoff then []
      else json_of_event e :: elements_wanted cutoff rest
  end.




(** The size invariant of the history. *)
Definition size_ok (s : State) : Prop := (length (history s) <= HISTORY_MAX)%nat.

(** The counters without the 32-bit wrap. *)
Definition tally (cutoff : Z) (h : list LightningEvent) : Counters :=
  mkCounters (Z.of_nat (length (window_entries cutoff h)))
    (bucket_count Near cutoff h) (bucket_count Mid cutoff h)
    (bucket_count Far cutoff h) (bucket_count OutOfRange cutoff h).

Definition counters_plus (a b : Counters) : Counters :=
  mkCounters (c_cnt a + c_cnt b) (c_near a + c_near b) (c_mid a + c_mid b)
    (c_far a + c_far b) (c_oor a + c_oor b).

(** Every bucket counter stays between 0 and the total. *)
Definition counters_ok (c : Counters) : Prop :=
  0 <= c_near c <= c_cnt c /\ 0 <= c_mid c <= c_cnt c /\
  0 <= c_far c <= c_cnt c /\ 0 <= c_oor c <= c_cnt c.

(** ** Start-up helpers *)

(** What [shortBlink] does to the outside, in order. *)
Inductive PinEvent : Type :=
| DigitalWrite (pin : Z) (high : bool)
| Delay (ms : Z).                       (* delay(uint32_t ms) *)

(** [const int ledPin = 8;] the on-board LED, lit when LOW. *)
Definition ledPin : Z := 8.

(** The body of [for (int i = 0; i < num; ++i)], [n] times. *)
Fixpoint shortBlink_loop (n : nat) (onMs offMs : Z) : list PinEvent :=
  match n with
  | O => []
  | S k =>
      DigitalWrite ledPin false :: Delay (to_uint32 onMs)
      :: DigitalWrite ledPin true :: Delay (to_uint32 offMs)
      :: shortBlink_loop k onMs offMs
  end.

(** [shortBlink(num, onMs, offMs)]: the loop runs [num] times, not at all
    when [num <= 0]. *)
Definition shortBlink (num onMs offMs : Z) : list PinEvent :=
  shortBlink_loop (Z.to_nat num) onMs offMs.

(** The milliseconds a trace spends in [delay]. *)
Fixpoint total_delay (tr : list PinEvent) : Z :=
  match tr with
  | [] => 0
  | Delay ms :: rest => ms + total_delay rest
  | DigitalWrite _ _ :: rest => total_delay rest
  end.

(** The level a trace leaves on [pin], [before] when it never writes it. *)
Fixpoint final_level (pin : Z) (before : bool) (tr : list PinEvent) : bool :=
  match tr with
  | [] => before
  | DigitalWrite p v :: rest =>
      final_level pin (if p =? pin then v else before) rest
  | Delay _ :: rest => final_level pin before rest
  end.

(** The loop of [setupTime] from pass [i] on, at most [left] passes:
    [time_t now = time(nullptr); if (now > 1600000000) break; delay(500);].
    [clock i] is what the [i]-th call of [time] returns; the result is the
    number of [delay(500)] calls. *)
Fixpoint setupTime_loop (left i : nat) (clock : nat -> Z) : nat :=
  match left with
  | O => O
  | S k =>
      if 1600000000 <? clock i then O
      else S (setupTime_loop k (S i) clock)
  end.

(** [setupTime] after [configTzTime]: [for (int i=0;i<10;i++)]. *)
Definition setupTime (clock : nat -> Z) : nat := setupTime_loop 10 0 clock.

(** ** Vocabulary for runs *)

(** The newest [m] entries of a sequence, oldest first. *)
Definition newest (m : nat) (l : list LightningEvent) : list LightningEvent :=
  skipn (length l - m) l.

(** A pass records an interrupt event when it observes the flag and reads a
    nonzero source. *)
Definition records_event (env : CycleEnv) (s : State) : bool :=
  irq_observed env s && negb (env_intSrc env =? 0).

(** How many passes of a run record an interrupt event. *)
Fixpoint interrupt_events (s : State) (xs : list Step) : nat :=
  match xs with
  | [] => O
  | x :: rest =>
      (match x with
       | Cycle env => if records_event env s then 1 else 0
       | Interrupt => 0
       end + interrupt_events (step s x) rest)%nat
  end.

(** The clock readings of the passes of a run never go back, starting
    from [t]. *)
Fixpoint clock_monotone (t : Z) (xs : list Step) : Prop :=
  match xs with
  | [] => True
  | Cycle env :: rest => t <= env_now env /\ clock_monotone (env_now env) rest
  | Interrupt :: rest => clock_monotone t rest
  end.

(** No entry is stamped later than [t]. *)
Definition not_after (t : Z) (h : list LightningEvent) : Prop :=
  Forall (fun e => ts e <= t) h.

(** The sensor driver hands out an 8-bit interrupt source. *)
Definition sensor_code_ok (x : Step) : Prop :=
  match x with
  | Cycle env => is_uint8 (env_intSrc env)
  | Interrupt => True
  end.

(** A record as the capture paths build it from a pending source. *)
Definition record_ok (e : LightningEvent) : Prop :=
  is_uint8 (distance e) /\ is_uint32 (energy e) /\ 1 <= event e <= 255.

(** The four LEDs read as a number, LED1 the lowest bit. *)
Definition led_value (l : Leds) : Z :=
  (if l1 l then 1 else 0) + (if l2 l then 2 else 0)
  + (if l3 l then 4 else 0) + (if l4 l then 8 else 0).

(** A pass in which no interrupt is observed; the ISR does not run. *)
Definition quiet_step (x : Step) : Prop :=
  match x with
  | Cycle env => env_isr_early env = false
  | Interrupt => False
  end.

(** 1 while an interrupt source waits for its poll confirmation. *)
Definition pending (s : State) : nat := if 0 <? lastEvent s then 1 else 0.

(** * Properties *)

(** ** Fixed-width conversions *)

Lemma to_uint8_id : forall x, is_uint8 x -> to_uint8 x = x.
Proof. intros x H. unfold to_uint8, is_uint8 in *. apply Z.mod_small. exact H. Qed.

Lemma to_uint32_id : forall x, is_uint32 x -> to_uint32 x = x.
Proof. intros x H. unfold to_uint32, is_uint32 in *. apply Z.mod_small. exact H. Qed.

Lemma to_uint8_range : forall x, is_uint8 (to_uint8 x).
Proof. intros x. unfold to_uint8, is_uint8. apply Z.mod_pos_bound. lia. Qed.

(** ** Eviction by age *)

Lemma trim_is_suffix : forall cutoff h,
  exists dropped, h = dropped ++ trimHistoryOlderThan cutoff h.
Proof.
  intros cutoff h. induction h as [|e rest IH]; simpl.
  - exists []. reflexivity.
  - destruct (ts e <? cutoff).
    + destruct IH as [d Hd]. exists (e :: d). simpl. rewrite <- Hd. reflexivity.
    + exists []. reflexivity.
Qed.

Lemma trim_length : forall cutoff h,
  (length (trimHistoryOlderThan cutoff h) <= length h)%nat.
Proof.
  intros cutoff h. induction h as [|e rest IH]; simpl.
  - lia.
  - destruct (ts e <? cutoff); simpl; lia.
Qed.

Lemma filter_all_true : forall (A : Type) (f : A -> bool) (l : list A),
  Forall (fun x => f x = true) l -> filter f l = l.
Proof.
  intros A f l H. induction H as [|x l Hx _ IH]; simpl.
  - reflexivity.
  - rewrite Hx, IH. reflexivity.
Qed.

Lemma time_ordered_tail : forall e h, time_ordered (e :: h) -> time_ordered h.
Proof. intros e h H. inversion H; assumption. Qed.

Lemma time_ordered_head_least : forall e h,
  time_ordered (e :: h) -> Forall (fun x => ts e <= ts x) h.
Proof.
  intros e h H. unfold time_ordered in H.
  apply Sorted_StronglySorted in H.
  - inversion H; subst. assumption.
  - unfold Relations_1.Transitive, ts_le. intros; lia.
Qed.

Lemma trim_sorted_is_filter : forall cutoff h,
  time_ordered h -> trimHistoryOlderThan cutoff h = window_entries cutoff h.
Proof.
  intros cutoff h. unfold window_entries.
  induction h as [|e rest IH]; intros Hs; simpl.
  - reflexivity.
  - unfold in_window at 1. destruct (ts e <? cutoff) eqn:E.
    + apply Z.ltb_lt in E.
      replace (cutoff <=? ts e) with false by (symmetry; apply Z.leb_gt; lia).
      apply IH. eapply time_ordered_tail; eassumption.
    + apply Z.ltb_ge in E.
      replace (cutoff <=? ts e) with true by (symmetry; apply Z.leb_le; lia).
      f_equal. symmetry. apply filter_all_true.
      eapply Forall_impl; [| apply time_ordered_head_least; eassumption].
      intros x Hx. unfold in_window. apply Z.leb_le. simpl in Hx. lia.
Qed.

(** C2. On a history in non-decreasing timestamp order,
    [trimHistoryOlderThan cutoff] leaves exactly the entries with
    [ts >= cutoff], in their original order: nothing older than the cutoff
    remains, and nothing at or after the cutoff is removed. *)
Theorem trimHistoryOlderThan_keeps_exactly_fresh :
  forall (cutoff : Z) (h : list LightningEvent),
    time_ordered h ->
    trimHistoryOlderThan cutoff h = filter (fun e => cutoff <=? ts e) h
    /\ Forall (fun e => cutoff <= ts e) (trimHistoryOlderThan cutoff h)
    /\ (forall e, In e h -> cutoff <= ts e -> In e (trimHistoryOlderThan cutoff h)).
Proof.
  intros cutoff h Hs.
  pose proof (trim_sorted_is_filter cutoff h Hs) as E.
  unfold window_entries, in_window in E.
  split; [exact E|]. rewrite E. split.
  - apply Forall_forall. intros e He. apply filter_In in He.
    destruct He as [_ He]. apply Z.leb_le in He. exact He.
  - intros e He Hc. apply filter_In. split; [exact He|].
    apply Z.leb_le. exact Hc.
Qed.

(** The retention scenario of the specification: entries at t=0, t=100 and
    t=90000, trimmed at 90001 - 86400 = 3601. *)
Lemma trimHistoryOlderThan_keeps_exactly_fresh_witness :
  let h := [mkEvent 0 3 0 8 true; mkEvent 100 63 0 8 true; mkEvent 90000 10 0 8 true] in
  trimHistoryOlderThan 3601 h = [mkEvent 90000 10 0 8 true]
  /\ Forall (fun e => 3601 <= ts e) (trimHistoryOlderThan 3601 h).
Proof.
  intros h.
  assert (Hs : time_ordered h).
  { unfold h, time_ordered.
    repeat (constructor; unfold ts_le; simpl; try lia). }
  destruct (trimHistoryOlderThan_keeps_exactly_fresh 3601 h Hs) as [E [F _]].
  split; [reflexivity | exact F].
Defined.

(** C7. Trimming twice with the same cutoff is trimming once, whatever the
    order of the timestamps. *)
Theorem trimHistoryOlderThan_idempotent :
  forall (cutoff : Z) (h : list LightningEvent),
    trimHistoryOlderThan cutoff (trimHistoryOlderThan cutoff h)
    = trimHistoryOlderThan cutoff h.
Proof.
  intros cutoff h. induction h as [|e rest IH].
  - reflexivity.
  - simpl. destruct (ts e <? cutoff) eqn:E.
    + exact IH.
    + simpl. rewrite E. reflexivity.
Qed.

(** ** The size bound *)

Lemma history_append_max_length : forall hmax e h,
  (0 < hmax)%nat -> (length h <= hmax)%nat ->
  (length (history_append_max hmax e h) <= hmax)%nat.
Proof.
  intros hmax e h Hpos Hle. unfold history_append_max, pop_front.
  rewrite length_app. simpl.
  destruct (hmax <=? length h)%nat eqn:E.
  - apply Nat.leb_le in E. destruct h as [|x h]; simpl in *; lia.
  - apply Nat.leb_gt in E. lia.
Qed.

Lemma history_append_length : forall e h,
  (length h <= HISTORY_MAX)%nat ->
  (length (history_append e h) <= HISTORY_MAX)%nat.
Proof.
  intros e h H. apply history_append_max_length; [unfold HISTORY_MAX; lia | exact H].
Qed.

Lemma history_appends_length : forall es h,
  (length h <= HISTORY_MAX)%nat ->
  (length (history_appends es h) <= HISTORY_MAX)%nat.
Proof.
  unfold history_appends, history_appends_max.
  induction es as [|e es IH]; intros h H; simpl.
  - exact H.
  - apply IH. apply history_append_length. exact H.
Qed.

(** Every prefix of a sequence of appends respects the bound too. *)
Lemma history_appends_prefix : forall es1 es2 h,
  history_appends (es1 ++ es2) h = history_appends es2 (history_appends es1 h).
Proof.
  intros. unfold history_appends, history_appends_max. apply fold_left_app.
Qed.

Lemma loop_irq_size_ok : forall env s, size_ok s -> size_ok (loop_irq env s).
Proof.
  intros env s H. unfold size_ok in *. unfold loop_irq.
  assert (Ht : (length (history (loop_trim env s)) <= HISTORY_MAX)%nat).
  { simpl. etransitivity; [apply trim_length | exact H]. }
  destruct (irq_observed env s); [| exact Ht].
  unfold loop_irq_branch. destruct (env_intSrc env =? 0); simpl.
  - simpl in Ht. exact Ht.
  - apply history_append_length. exact Ht.
Qed.

Lemma loop_poll_size_ok : forall env s, size_ok s -> size_ok (loop_poll env s).
Proof.
  intros env s H. unfold size_ok in *. unfold loop_poll.
  destruct (poll_due env s); [| exact H].
  destruct (0 <? lastEvent s); [| exact H].
  simpl. apply history_append_length. exact H.
Qed.

Lemma step_size_ok : forall s x, size_ok s -> size_ok (step s x).
Proof.
  intros s [env|] H; simpl.
  - unfold loop. apply loop_poll_size_ok, loop_irq_size_ok, H.
  - exact H.
Qed.

Lemma run_size_ok : forall xs s, size_ok s -> size_ok (run s xs).
Proof.
  unfold run. induction xs as [|x xs IH]; intros s H; simpl.
  - exact H.
  - apply IH, step_size_ok, H.
Qed.

(** C1. The history never holds more than [HISTORY_MAX] entries: from a
    history within the bound, every sequence of appends stays within it, and
    so does every run of the firmware (both capture paths of [loop] append
    through [history_append]). An append to a full history drops the front
    entry and puts the new record at the tail; below the bound it only adds
    the record at the tail. With a bound of 2, appending A, B, C leaves
    [B; C]. *)
Theorem history_size_never_exceeds_HISTORY_MAX :
  forall (h es : list LightningEvent) (e : LightningEvent),
    (length h <= HISTORY_MAX)%nat ->
    (length (history_appends es h) <= HISTORY_MAX)%nat
    /\ (length h = HISTORY_MAX -> history_append e h = pop_front h ++ [e])
    /\ ((length h < HISTORY_MAX)%nat -> history_append e h = h ++ [e])
    /\ (forall s xs, history s = h ->
          (length (history (run s xs)) <= HISTORY_MAX)%nat)
    /\ (forall A B C, history_appends_max 2 [A; B; C] [] = [B; C]).
Proof.
  intros h es e Hle. repeat split.
  - apply history_appends_length. exact Hle.
  - intros Hfull. unfold history_append, history_append_max.
    rewrite Hfull, Nat.leb_refl. reflexivity.
  - intros Hlt. unfold history_append, history_append_max.
    apply Nat.leb_gt in Hlt. rewrite Hlt. reflexivity.
  - intros s xs Hs. apply run_size_ok. unfold size_ok. rewrite Hs. exact Hle.
Qed.

Lemma history_size_never_exceeds_HISTORY_MAX_witness :
  let A := mkEvent 10 1 100 8 true in
  let B := mkEvent 20 5 200 8 true in
  let C := mkEvent 30 63 300 1 false in
  (length (history_appends [A; B; C] []) <= HISTORY_MAX)%nat
  /\ history_append C [A; B] = [A; B; C]
  /\ history_appends_max 2 [A; B; C] [] = [B; C].
Proof.
  intros A B C.
  assert (H0 : (length (@nil LightningEvent) <= HISTORY_MAX)%nat)
    by (unfold HISTORY_MAX; simpl; lia).
  assert (H2 : (length [A; B] <= HISTORY_MAX)%nat)
    by (unfold HISTORY_MAX; simpl; lia).
  destruct (history_size_never_exceeds_HISTORY_MAX [] [A; B; C] C H0)
    as [Hlen [_ [_ [_ Hex]]]].
  destruct (history_size_never_exceeds_HISTORY_MAX [A; B] [] C H2)
    as [_ [_ [Hadd _]]].
  split; [exact Hlen | split].
  - apply Hadd. unfold HISTORY_MAX. simpl. lia.
  - apply Hex.
Defined.

(** ** The range query *)




Lemma StronglySorted_snoc : forall (A : Type) (R : A -> A -> Prop) l a,
  StronglySorted R l -> Forall (fun x => R x a) l ->
  StronglySorted R (l ++ [a]).
Proof.
  intros A R l a Hs. induction Hs as [|x l Hl IH Hx]; intros Ha; simpl.
  - constructor; constructor.
  - inversion Ha; subst. constructor.
    + apply IH. assumption.
    + apply Forall_app. split; [assumption | constructor; [assumption | constructor]].
Qed.




Lemma time_ordered_strongly : forall h,
  time_ordered h -> StronglySorted ts_le h.
Proof.
  intros h H. apply Sorted_StronglySorted; [| exact H].
  unfold Relations_1.Transitive, ts_le. intros; lia.
Qed.

Lemma events_from_back_no_room : forall cutoff l,
  events_from_back O cutoff l = [].
Proof.
  intros cutoff l. induction l as [|e l IH]; cbn [events_from_back].
  - reflexivity.
  - destruct (ts e <? cutoff); [reflexivity | exact IH].
Qed.

(** The array is the front of what the loop asks for, as far as the
    document has room. *)
Lemma events_from_back_firstn : forall room cutoff l,
  events_from_back room cutoff l = firstn room (elements_wanted cutoff l).
Proof.
  intros room cutoff l. revert room.
  induction l as [|e l IH]; intros room;
    cbn [events_from_back elements_wanted].
  - rewrite firstn_nil. reflexivity.
  - destruct (ts e <? cutoff); [rewrite firstn_nil; reflexivity |].
    destruct room as [|room].
    + apply events_from_back_no_room.
    + cbn [firstn]. rewrite IH. reflexivity.
Qed.




(** ** The statistics *)

Lemma incr_small : forall x, 0 <= x -> x + 1 < 2 ^ 32 -> incr x = x + 1.
Proof.
  intros x H0 H1. unfold incr, to_uint32. apply Z.mod_small. lia.
Qed.

Lemma bucket_count_cons : forall b cutoff e h,
  bucket_count b cutoff (e :: h)
  = (if in_window cutoff e && Bucket_eqb (spec_bucket (distance e)) b
     then 1 else 0) + bucket_count b cutoff h.
Proof.
  intros b cutoff e h. unfold bucket_count, window_entries. simpl.
  destruct (in_window cutoff e); simpl.
  - destruct (Bucket_eqb (spec_bucket (distance e)) b); simpl length; lia.
  - lia.
Qed.

Lemma window_length_cons : forall cutoff e h,
  Z.of_nat (length (window_entries cutoff (e :: h)))
  = (if in_window cutoff e then 1 else 0)
    + Z.of_nat (length (window_entries cutoff h)).
Proof.
  intros cutoff e h. unfold window_entries. simpl.
  destruct (in_window cutoff e); simpl length; lia.
Qed.

Lemma stats_fold_tally : forall cutoff h c,
  counters_ok c ->
  c_cnt c + Z.of_nat (length h) < 2 ^ 32 ->
  fold_left (stats_step cutoff) h c = counters_plus c (tally cutoff h).
Proof.
  intros cutoff h. induction h as [|e h IH]; intros c Hok Hlen.
  - simpl. unfold counters_plus, tally, bucket_count. simpl.
    destruct c; simpl. f_equal; lia.
  - cbn [fold_left]. cbn [length] in Hlen.
    destruct Hok as [Hn [Hm [Hf Ho]]].
    unfold stats_step at 2.
    destruct (ts e <? cutoff) eqn:Et.
    + rewrite IH; [| repeat split; lia | lia].
      unfold counters_plus, tally. cbn [c_cnt c_near c_mid c_far c_oor].
      rewrite !bucket_count_cons, window_length_cons.
      unfold in_window.
      apply Z.ltb_lt in Et.
      replace (cutoff <=? ts e) with false by (symmetry; apply Z.leb_gt; lia).
      simpl. reflexivity.
    + apply Z.ltb_ge in Et.
      assert (Hin : in_window cutoff e = true)
        by (unfold in_window; apply Z.leb_le; lia).
      assert (Hcnt : incr (c_cnt c) = c_cnt c + 1) by (apply incr_small; lia).
      unfold counters_plus, tally. cbn [c_cnt c_near c_mid c_far c_oor].
      rewrite !bucket_count_cons, window_length_cons, Hin.
      unfold spec_bucket. cbn [andb].
      destruct (distance e =? 63);
        [| destruct (distance e <=? 5); [| destruct (distance e <=? 15)]];
        (rewrite IH;
         [ unfold counters_plus, tally;
           cbn [c_cnt c_near c_mid c_far c_oor Bucket_eqb];
           rewrite ?Hcnt, ?incr_small by lia; f_equal; lia
         | unfold counters_ok; cbn [c_cnt c_near c_mid c_far c_oor];
           rewrite ?Hcnt, ?incr_small by lia; repeat split; lia
         | cbn [c_cnt]; rewrite Hcnt; lia ]).
Qed.

Lemma stats_scan_tally : forall cutoff h,
  Z.of_nat (length h) < 2 ^ 32 -> stats_scan cutoff h = tally cutoff h.
Proof.
  intros cutoff h H. unfold stats_scan.
  rewrite stats_fold_tally.
  - unfold counters_plus. simpl. reflexivity.
  - unfold counters_ok. simpl. lia.
  - simpl. exact H.
Qed.

(** The four buckets partition the window. *)
Lemma buckets_partition : forall cutoff h,
  bucket_count Near cutoff h + bucket_count Mid cutoff h
  + bucket_count Far cutoff h + bucket_count OutOfRange cutoff h
  = Z.of_nat (length (window_entries cutoff h)).
Proof.
  intros cutoff h. induction h as [|e h IH].
  - reflexivity.
  - rewrite !bucket_count_cons, window_length_cons.
    destruct (in_window cutoff e); cbn [andb]; [| lia].
    destruct (spec_bucket (distance e)); cbn [Bucket_eqb]; lia.
Qed.

(** C4. [handleStats] counts every entry of the window
    ([ts >= now - sinceSec]) once in the total and once in exactly one
    bucket: out of range when its distance is 63, else near up to 5, else mid
    up to 15, else far; the four bucket counts add up to the total. The
    history has fewer than 2^32 entries, as any deque of the 32-bit target. *)
Theorem handleStats_buckets_partition_window :
  forall (r : Request) (now : Z) (s : State),
    Z.of_nat (length (history s)) < 2 ^ 32 ->
    let doc := fst (handleStats r now s) in
    let cutoff := now - handleStats_sinceSec r in
    count doc = Z.of_nat (length (filter (fun e => cutoff <=? ts e) (history s)))
    /\ out_of_range doc = bucket_count OutOfRange cutoff (history s)
    /\ near_le_5km doc = bucket_count Near cutoff (history s)
    /\ mid_6_15km doc = bucket_count Mid cutoff (history s)
    /\ far_gt_15km doc = bucket_count Far cutoff (history s)
    /\ near_le_5km doc + mid_6_15km doc + far_gt_15km doc + out_of_range doc
       = count doc.
Proof.
  intros r now s Hlen doc cutoff.
  assert (E : stats_scan cutoff (history s) = tally cutoff (history s))
    by (apply stats_scan_tally; exact Hlen).
  unfold doc, handleStats. cbn [fst count out_of_range near_le_5km mid_6_15km far_gt_15km].
  fold cutoff. rewrite E. unfold tally.
  cbn [c_cnt c_near c_mid c_far c_oor].
  repeat split; try reflexivity.
  apply buckets_partition.
Qed.

Lemma handleStats_buckets_partition_window_witness :
  let s := mkState [mkEvent 100 3 1 8 true; mkEvent 9000 63 2 4 true;
                    mkEvent 9500 5 3 8 true; mkEvent 9800 15 4 8 false;
                    mkEvent 10000 16 5 8 true]
             16 5 10000 0 true false false 0 all_off in
  let doc := fst (handleStats (mkRequest None (Some "hour"%string)) 10000 s) in
  count doc = 4 /\ near_le_5km doc = 1 /\ mid_6_15km doc = 1
  /\ far_gt_15km doc = 1 /\ out_of_range doc = 1
  /\ near_le_5km doc + mid_6_15km doc + far_gt_15km doc + out_of_range doc
     = count doc.
Proof.
  intros s doc.
  assert (Hlen : Z.of_nat (length (history s)) < 2 ^ 32) by (simpl; lia).
  destruct (handleStats_buckets_partition_window
              (mkRequest None (Some "hour"%string)) 10000 s Hlen)
    as [Hc [Ho [Hn [Hm [Hf Hsum]]]]].
  repeat (split; [reflexivity |]). exact Hsum.
Defined.

(** ** The LED indicator *)

Ltac pick_key := simpl; repeat (first [left; reflexivity | right]).

(** C9. [setLedsForDistance] looks the distance up by exact match: each of
    the sixteen keys 1, 5, 6, 8, 10, 12, 14, 17, 20, 24, 27, 31, 34, 37, 40,
    63 has its fixed pattern (all off for 63), and every other distance, 0
    included, switches all four LEDs off; no neighbouring key is used. *)
Theorem setLedsForDistance_exact_match :
  map setLedsForDistance led_keys
  = [ mkLeds true true true true;      (*  1 *)
      mkLeds false true true true;     (*  5 *)
      mkLeds true false true true;     (*  6 *)
      mkLeds false false true true;    (*  8 *)
      mkLeds true true false true;     (* 10 *)
      mkLeds false true false true;    (* 12 *)
      mkLeds true false false true;    (* 14 *)
      mkLeds false false false true;   (* 17 *)
      mkLeds true true true false;     (* 20 *)
      mkLeds false true true false;    (* 24 *)
      mkLeds true false true false;    (* 27 *)
      mkLeds false false true false;   (* 31 *)
      mkLeds true true false false;    (* 34 *)
      mkLeds false true false false;   (* 37 *)
      mkLeds true false false false;   (* 40 *)
      mkLeds false false false false ] (* 63 *)
  /\ (forall km, ~ In km led_keys -> setLedsForDistance km = all_off)
  /\ setLedsForDistance 0 = all_off
  /\ (forall km, setLedsForDistance km <> all_off -> In km led_keys /\ km <> 63).
Proof.
  assert (Hmiss : forall km, ~ In km led_keys -> setLedsForDistance km = all_off).
  { intros km H. destruct km as [|p|p]; try reflexivity.
    do 7 (try (destruct p as [p|p|]; try reflexivity));
      exfalso; apply H; pick_key. }
  split; [reflexivity |]. split; [exact Hmiss |]. split; [reflexivity |].
  intros km Hon. split.
  - destruct (in_dec Z.eq_dec km led_keys) as [Hin | Hout]; [exact Hin |].
    exfalso. apply Hon. apply Hmiss. exact Hout.
  - intros ->. apply Hon. reflexivity.
Qed.

Lemma setLedsForDistance_exact_match_witness :
  setLedsForDistance 2 = all_off /\ setLedsForDistance 39 = all_off
  /\ In 40 led_keys.
Proof.
  destruct setLedsForDistance_exact_match as [_ [Hmiss [_ Hon]]].
  split; [| split].
  - apply Hmiss. unfold led_keys. simpl. intros H.
    repeat (destruct H as [H | H]; [discriminate H |]). exact H.
  - apply Hmiss. unfold led_keys. simpl. intros H.
    repeat (destruct H as [H | H]; [discriminate H |]). exact H.
  - apply (Hon 40). discriminate.
Defined.

(** ** Query parameters *)





(** ** The capture paths of [loop] *)

Lemma loop_irq_keeps_tLastPoll : forall env s,
  tLastPoll (loop_irq env s) = tLastPoll s.
Proof.
  intros env s. unfold loop_irq, loop_irq_branch.
  destruct (irq_observed env s); [destruct (env_intSrc env =? 0) |]; reflexivity.
Qed.

Lemma poll_due_after_irq : forall env s,
  poll_due env (loop_irq env s) = poll_due env s.
Proof.
  intros env s. unfold poll_due. rewrite loop_irq_keeps_tLastPoll. reflexivity.
Qed.

(** Against C5 as stated. A pass with the flag set, source 8 and the poll due
    (20 s after the last poll): the interrupt branch and the poll branch both
    record, so the pass adds two entries, not one, and ends with
    [lastEvent = 0]. *)
Lemma loop_interrupt_pass_appends_twice :
  let s := onAs3935Interrupt (initial_state true) in
  let env := mkEnv 1761393845 false 8 10 5000 20000 20001 10 5000 in
  irq_observed env s = true
  /\ env_intSrc env = 8
  /\ history s = []
  /\ history (loop env s)
     = [mkEvent 1761393845 10 5000 8 true; mkEvent 1761393845 10 5000 8 true]
  /\ lastEvent (loop env s) = 0
  /\ ~ (exists e, history (loop env s) = history s ++ [e]).
Proof.
  intros s env.
  repeat (split; [reflexivity |]).
  intros [e He]. vm_compute in He. discriminate He.
Qed.

(** C5, as the code has it. In a pass of [loop] that observes the interrupt
    flag set: a nonzero interrupt source (1, 4, 8 or any other) makes the
    interrupt branch append exactly one record, stamped with the clock
    reading of the pass and carrying the sensor's distance, energy and the
    source, and set [lastDistance], [lastEnergy], [lastEventTs] and
    [lastEvent]; when the poll is not due that is all the pass appends, and
    when it is due the poll branch appends a second record in the same pass
    and resets [lastEvent] to 0. A zero source appends nothing: the history
    is left as it was when the flag was observed, after the retention trim
    at the top of the pass. *)
Theorem loop_interrupt_pass_records_event :
  forall (env : CycleEnv) (s : State),
    irq_observed env s = true ->
    is_uint8 (env_intSrc env) ->
    is_uint8 (env_dist_irq env) ->
    is_uint32 (env_energy_irq env) ->
    let now := env_now env in
    let kept := trimHistoryOlderThan (now - 24 * 3600) (history s) in
    let rec := mkEvent now (env_dist_irq env) (env_energy_irq env)
                 (env_intSrc env) (irqFlag s) in
    let mid := loop_irq env s in
    loop env s = loop_poll env mid
    /\ (env_intSrc env <> 0 ->
          history mid = history_append rec kept
          /\ lastDistance mid = env_dist_irq env
          /\ lastEnergy mid = env_energy_irq env
          /\ lastEventTs mid = now
          /\ lastEvent mid = env_intSrc env
          /\ leds mid = setLedsForDistance (env_dist_irq env)
          /\ (poll_due env s = false -> loop env s = mid)
          /\ (poll_due env s = true ->
                history (loop env s)
                = history_append (poll_record env mid) (history_append rec kept)
                /\ lastEventTs (loop env s) = now
                /\ lastEvent (loop env s) = 0))
    /\ (env_intSrc env = 0 ->
          loop env s = mid
          /\ history (loop env s) = kept
          /\ lastEvent (loop env s) = 0
          /\ lastDistance (loop env s) = lastDistance s
          /\ lastEnergy (loop env s) = lastEnergy s
          /\ lastEventTs (loop env s) = lastEventTs s).
Proof.
  intros env s Hobs Hsrc Hdist Hen now kept rec mid.
  split; [reflexivity |].
  assert (Hmid : mid = loop_irq_branch env (loop_trim env s)).
  { unfold mid, loop_irq. rewrite Hobs. reflexivity. }
  split.
  - intros Hnz.
    assert (Hz : (env_intSrc env =? 0) = false) by (apply Z.eqb_neq; exact Hnz).
    assert (Hrec : irq_record env (loop_trim env s) = rec).
    { unfold irq_record, rec, now. simpl.
      rewrite (to_uint8_id _ Hsrc), (to_uint8_id _ Hdist), (to_uint32_id _ Hen).
      reflexivity. }
    assert (Hm : mid = mkState (history_append rec kept)
                   (env_dist_irq env) (env_energy_irq env) now (env_intSrc env)
                   (AS3935_started s) (irqFlag s) false (tLastPoll s)
                   (setLedsForDistance (env_dist_irq env))).
    { rewrite Hmid. unfold loop_irq_branch. rewrite Hz, Hrec. simpl.
      rewrite (to_uint8_id _ Hsrc), (to_uint8_id _ Hdist), (to_uint32_id _ Hen).
      reflexivity. }
    assert (Hpos : (0 <? lastEvent mid) = true).
    { rewrite Hm. simpl. apply Z.ltb_lt. unfold is_uint8 in Hsrc. lia. }
    repeat split; try (rewrite Hm; reflexivity).
    + intros Hnd. unfold loop. fold mid. unfold loop_poll.
      unfold mid at 1. rewrite poll_due_after_irq, Hnd. reflexivity.
    + unfold loop. fold mid. unfold loop_poll.
      unfold mid at 1. rewrite poll_due_after_irq, H, Hpos. simpl.
      rewrite Hm. reflexivity.
    + unfold loop. fold mid. unfold loop_poll.
      unfold mid at 1. rewrite poll_due_after_irq, H, Hpos. simpl.
      rewrite Hm. reflexivity.
    + unfold loop. fold mid. unfold loop_poll.
      unfold mid at 1. rewrite poll_due_after_irq, H, Hpos. reflexivity.
  - intros Hzero.
    assert (Hm : mid = mkState kept (lastDistance s) (lastEnergy s)
                   (lastEventTs s) 0 (AS3935_started s) (irqFlag s) false
                   (tLastPoll s) (leds s)).
    { rewrite Hmid. unfold loop_irq_branch. rewrite Hzero. reflexivity. }
    assert (Hl : loop env s = mid).
    { unfold loop. fold mid. unfold loop_poll. rewrite Hm. simpl.
      destruct (poll_due _ _); reflexivity. }
    rewrite Hl, Hm. repeat split; reflexivity.
Qed.

(** Two passes with the flag set and source 8: one 5 s after the last poll
    (one record), one 20 s after it (two records). *)
Lemma loop_interrupt_pass_records_event_witness :
  let s := onAs3935Interrupt (initial_state true) in
  let quiet := mkEnv 1761393845 false 8 10 5000 5000 5001 12 6000 in
  let due := mkEnv 1761393845 false 8 10 5000 20000 20001 12 6000 in
  history (loop quiet s) = [mkEvent 1761393845 10 5000 8 true]
  /\ lastEvent (loop quiet s) = 8
  /\ history (loop due s)
     = [mkEvent 1761393845 10 5000 8 true; mkEvent 1761393845 12 6000 8 true]
  /\ lastEvent (loop due s) = 0.
Proof.
  intros s quiet due.
  assert (R8 : is_uint8 8) by (unfold is_uint8; lia).
  assert (R10 : is_uint8 10) by (unfold is_uint8; lia).
  assert (R5000 : is_uint32 5000) by (unfold is_uint32; lia).
  destruct (loop_interrupt_pass_records_event quiet s eq_refl R8 R10 R5000)
    as [_ [Hq _]].
  destruct (loop_interrupt_pass_records_event due s eq_refl R8 R10 R5000)
    as [_ [Hd _]].
  assert (N8 : env_intSrc quiet <> 0) by (simpl; discriminate).
  destruct (Hq N8) as [Hh [_ [_ [_ [He [_ [Hone _]]]]]]].
  destruct (Hd N8) as [_ [_ [_ [_ [_ [_ [_ Htwo]]]]]]].
  destruct (Htwo eq_refl) as [Hh2 [_ He2]].
  split; [| split; [| split]].
  - rewrite (Hone eq_refl), Hh. reflexivity.
  - rewrite (Hone eq_refl), He. reflexivity.
  - rewrite Hh2. reflexivity.
  - exact He2.
Defined.

(** Against C6 as stated. A state with [lastEvent = 8] and a check exactly
    10000 ms after the last poll: 10 s have elapsed, yet [10000 > 10000] is
    false and the poll branch does nothing. *)
Lemma loop_poll_idle_at_exactly_10s :
  let s := mkState [mkEvent 1761393845 10 5000 8 true] 10 5000 1761393845 8
             true true false 7000 (setLedsForDistance 10) in
  let env := mkEnv 1761393855 false 0 0 0 17000 17000 12 6000 in
  to_uint32 (env_millis_check env - tLastPoll s) = 10000
  /\ lastEvent s = 8
  /\ loop_poll env s = s
  /\ history (loop env s) = history s
  /\ lastEvent (loop env s) = 8.
Proof.
  intros s env. repeat split; reflexivity.
Qed.

(** C6, as the code has it. When more than 10000 ms have passed since
    [tLastPoll] (in 32-bit [millis] arithmetic) and [lastEvent] is nonzero at
    the check, the poll branch re-samples distance and energy, appends
    exactly one record carrying them and the pending source, and resets
    [lastEvent] to 0. When [lastEvent] is zero, or no more than 10000 ms have
    passed, it changes nothing. *)
Theorem loop_poll_confirms_after_10s :
  forall (env : CycleEnv) (s : State),
    is_uint8 (lastEvent s) ->
    is_uint8 (env_dist_poll env) ->
    is_uint32 (env_energy_poll env) ->
    is_uint32 (env_millis_stamp env) ->
    let elapsed := to_uint32 (env_millis_check env - tLastPoll s) in
    let rec := mkEvent (env_now env) (env_dist_poll env) (env_energy_poll env)
                 (lastEvent s) (AS3935_irq s) in
    (10000 < elapsed -> lastEvent s <> 0 ->
       history (loop_poll env s) = history_append rec (history s)
       /\ lastDistance (loop_poll env s) = env_dist_poll env
       /\ lastEnergy (loop_poll env s) = env_energy_poll env
       /\ lastEvent (loop_poll env s) = 0
       /\ tLastPoll (loop_poll env s) = env_millis_stamp env
       /\ leds (loop_poll env s) = setLedsForDistance (env_dist_poll env))
    /\ (lastEvent s = 0 -> loop_poll env s = s)
    /\ (elapsed <= 10000 -> loop_poll env s = s).
Proof.
  intros env s Hev Hdist Hen Hms elapsed rec.
  unfold loop_poll, poll_due. fold elapsed.
  split; [| split].
  - intros Hdue Hnz.
    apply Z.ltb_lt in Hdue. rewrite Hdue.
    assert (Hpos : (0 <? lastEvent s) = true)
      by (apply Z.ltb_lt; unfold is_uint8 in Hev; lia).
    rewrite Hpos. unfold poll_record. simpl.
    rewrite (to_uint8_id _ Hdist), (to_uint32_id _ Hen), (to_uint32_id _ Hms).
    repeat split; reflexivity.
  - intros Hz. rewrite Hz. simpl. destruct (10000 <? elapsed); reflexivity.
  - intros Hle. apply Z.ltb_ge in Hle. rewrite Hle. reflexivity.
Qed.

(** An interrupt-sourced event (source 8) recorded at 12:04:05, confirmed by
    the poll branch 10.001 s after the last poll: the history holds two
    entries for it. At 10.000 s nothing is added. *)
Lemma loop_poll_confirms_after_10s_witness :
  let s := mkState [mkEvent 1761393845 10 5000 8 true] 10 5000 1761393845 8
             true true false 7000 (setLedsForDistance 10) in
  let late := mkEnv 1761393855 false 0 0 0 17001 17002 12 6000 in
  let early := mkEnv 1761393855 false 0 0 0 17000 17000 12 6000 in
  history (loop_poll late s)
  = [mkEvent 1761393845 10 5000 8 true; mkEvent 1761393855 12 6000 8 true]
  /\ lastEvent (loop_poll late s) = 0
  /\ loop_poll early s = s.
Proof.
  intros s late early.
  assert (R8 : is_uint8 (lastEvent s)) by (unfold is_uint8; simpl; lia).
  assert (R12 : is_uint8 12) by (unfold is_uint8; lia).
  assert (R6000 : is_uint32 6000) by (unfold is_uint32; lia).
  assert (Rl : is_uint32 17002) by (unfold is_uint32; lia).
  assert (Re : is_uint32 17000) by (unfold is_uint32; lia).
  destruct (loop_poll_confirms_after_10s late s R8 R12 R6000 Rl) as [Hfire _].
  destruct (loop_poll_confirms_after_10s early s R8 R12 R6000 Re) as [_ [_ Hidle]].
  assert (Hdue : 10000 < to_uint32 (env_millis_check late - tLastPoll s))
    by (vm_compute; reflexivity).
  assert (Hnz : lastEvent s <> 0) by (simpl; discriminate).
  destruct (Hfire Hdue Hnz) as [Hh [_ [_ [He _]]]].
  split; [| split].
  - rewrite Hh. reflexivity.
  - exact He.
  - apply Hidle. vm_compute. discriminate.
Defined.

(** C10. The poll branch never writes [lastEventTs]: when it appends its
    confirmation record (stamped with the clock reading of the pass) and
    overwrites [lastDistance], [lastEnergy] and [lastEvent], the
    [last_event_ts] and [last_event_iso] fields of [handleLive] still show
    the timestamp set by the interrupt branch, not that of the record just
    appended. *)
Theorem loop_poll_keeps_lastEventTs :
  forall (env : CycleEnv) (s : State) (localIP : string) (millis : Z),
    poll_due env s = true ->
    0 < lastEvent s ->
    let s' := loop_poll env s in
    let live := fst (handleLive localIP millis s') in
    history s' = history_append (poll_record env s) (history s)
    /\ ts (poll_record env s) = env_now env
    /\ lastDistance s' = to_uint8 (env_dist_poll env)
    /\ lastEnergy s' = to_uint32 (env_energy_poll env)
    /\ lastEvent s' = 0
    /\ lastEventTs s' = lastEventTs s
    /\ last_event_ts live = lastEventTs s
    /\ last_event_iso live = last_event_iso (fst (handleLive localIP millis s))
    /\ (lastEventTs s <> env_now env ->
          last_event_ts live <> ts (poll_record env s)).
Proof.
  intros env s localIP millis Hdue Hpos s' live.
  apply Z.ltb_lt in Hpos.
  assert (E : s' = mkState (history_append (poll_record env s) (history s))
                (to_uint8 (env_dist_poll env)) (to_uint32 (env_energy_poll env))
                (lastEventTs s) 0 (AS3935_started s) (AS3935_irq s) (irqFlag s)
                (to_uint32 (env_millis_stamp env))
                (setLedsForDistance (to_uint8 (env_dist_poll env)))).
  { unfold s', loop_poll. rewrite Hdue, Hpos. reflexivity. }
  unfold live. rewrite E. simpl.
  repeat split; try reflexivity.
  intros Hne. exact Hne.
Qed.

Lemma loop_poll_keeps_lastEventTs_witness :
  let s := mkState [mkEvent 1761393845 10 5000 8 true] 10 5000 1761393845 8
             true true false 7000 (setLedsForDistance 10) in
  let env := mkEnv 1761393855 false 0 0 0 17001 17002 12 6000 in
  let live := fst (handleLive "192.168.0.7" 17003 (loop_poll env s)) in
  map ts (history (loop_poll env s)) = [1761393845; 1761393855]
  /\ last_event_ts live = 1761393845
  /\ last_event_iso live = "2025-10-25T12:04:05Z"%string
  /\ last_distance_km live = 12.
Proof.
  intros s env live.
  assert (Hdue : poll_due env s = true) by (vm_compute; reflexivity).
  assert (Hpos : 0 < lastEvent s) by (simpl; lia).
  destruct (loop_poll_keeps_lastEventTs env s "192.168.0.7" 17003 Hdue Hpos)
    as [Hh [_ [Hd [_ [_ [_ [Hts [Hiso _]]]]]]]].
  split; [| split; [| split]].
  - rewrite Hh. reflexivity.
  - exact Hts.
  - unfold live. rewrite Hiso. vm_compute. reflexivity.
  - vm_compute. reflexivity.
Defined.

(** ** The library models on sample inputs *)

Example tsToIso8601_epoch : tsToIso8601 0 = "1970-01-01T00:00:00Z"%string.
Proof. reflexivity. Qed.

Example tsToIso8601_leap_day :
  tsToIso8601 1709251199 = "2024-02-29T23:59:59Z"%string.
Proof. vm_compute. reflexivity. Qed.

Example String_toInt_samples :
  String_toInt "7200" = 7200 /\ String_toInt "  -15" = -15
  /\ String_toInt "abc" = 0 /\ String_toInt "" = 0
  /\ String_toInt "99999999999" = LONG_MAX.
Proof. repeat split; reflexivity. Qed.

Example lastEventString_lightning :
  lastEventString 8 = "Blitz :: Wert binär =1000"%string.
Proof. reflexivity. Qed.

(** * Further properties of the code *)

(** ** Eviction by age, without an ordering assumption *)

Lemma trim_older_cutoff_first : forall c1 c2 h,
  trimHistoryOlderThan c1 (trimHistoryOlderThan c2 h)
  = trimHistoryOlderThan (Z.max c1 c2) h.
Proof.
  intros c1 c2 h. induction h as [|e rest IH]; [reflexivity |].
  cbn [trimHistoryOlderThan].
  destruct (ts e <? c2) eqn:E2; destruct (ts e <? Z.max c1 c2) eqn:Em.
  - exact IH.
  - apply Z.ltb_lt in E2. apply Z.ltb_ge in Em. lia.
  - cbn [trimHistoryOlderThan].
    apply Z.ltb_ge in E2. apply Z.ltb_lt in Em.
    assert (Hmax : Z.max c1 c2 = c1) by lia.
    rewrite Hmax in *.
    apply Z.ltb_lt in Em. rewrite Em. reflexivity.
  - cbn [trimHistoryOlderThan].
    apply Z.ltb_ge in Em.
    replace (ts e <? c1) with false by (symmetry; apply Z.ltb_ge; lia).
    reflexivity.
Qed.

(** X1. Two trims in a row are one trim at the later cutoff, in either
    order and for any history. *)
Theorem trimHistoryOlderThan_compose :
  forall (c1 c2 : Z) (h : list LightningEvent),
    trimHistoryOlderThan c1 (trimHistoryOlderThan c2 h)
    = trimHistoryOlderThan (Z.max c1 c2) h
    /\ trimHistoryOlderThan c1 (trimHistoryOlderThan c2 h)
       = trimHistoryOlderThan c2 (trimHistoryOlderThan c1 h).
Proof.
  intros c1 c2 h. split.
  - apply trim_older_cutoff_first.
  - rewrite !trim_older_cutoff_first. rewrite Z.max_comm. reflexivity.
Qed.

Lemma trim_front_run : forall cutoff h,
  exists dropped,
    h = dropped ++ trimHistoryOlderThan cutoff h
    /\ Forall (fun e => ts e < cutoff) dropped.
Proof.
  intros cutoff h. induction h as [|e rest IH]; cbn [trimHistoryOlderThan].
  - exists []. split; [reflexivity | constructor].
  - destruct (ts e <? cutoff) eqn:E.
    + destruct IH as [d [Hd Hf]]. exists (e :: d). split.
      * simpl. rewrite <- Hd. reflexivity.
      * constructor; [apply Z.ltb_lt; exact E | exact Hf].
    + exists []. split; [reflexivity | constructor].
Qed.

Lemma trim_head_fresh : forall cutoff h e rest,
  trimHistoryOlderThan cutoff h = e :: rest -> cutoff <= ts e.
Proof.
  intros cutoff h. induction h as [|a h IH]; cbn [trimHistoryOlderThan];
    intros e rest H.
  - discriminate H.
  - destruct (ts a <? cutoff) eqn:E.
    + eapply IH. exact H.
    + inversion H; subst. apply Z.ltb_ge in E. exact E.
Qed.

(** X2. For any history, ordered or not, the trim removes a run of stale
    entries at the front and nothing else: the result is the rest of the
    history in place, and it is empty or starts with an entry that is not
    older than the cutoff. Entries behind that one stay, stale or not. *)
Theorem trimHistoryOlderThan_drops_front_run :
  forall (cutoff : Z) (h : list LightningEvent),
    exists dropped,
      h = dropped ++ trimHistoryOlderThan cutoff h
      /\ Forall (fun e => ts e < cutoff) dropped
      /\ (forall e rest, trimHistoryOlderThan cutoff h = e :: rest ->
            cutoff <= ts e).
Proof.
  intros cutoff h. destruct (trim_front_run cutoff h) as [d [Hd Hf]].
  exists d. split; [exact Hd |]. split; [exact Hf |].
  intros e rest H. eapply trim_head_fresh. exact H.
Qed.

Lemma trimHistoryOlderThan_drops_front_run_witness :
  let h := [mkEvent 100 1 0 8 true; mkEvent 5000 1 0 8 true;
            mkEvent 200 1 0 8 true] in
  trimHistoryOlderThan 1000 h
  = [mkEvent 5000 1 0 8 true; mkEvent 200 1 0 8 true]
  /\ 1000 <= 5000.
Proof.
  intros h.
  destruct (trimHistoryOlderThan_drops_front_run 1000 h) as [d [_ [_ Hhead]]].
  split; [reflexivity |].
  apply (Hhead (mkEvent 5000 1 0 8 true) [mkEvent 200 1 0 8 true]).
  reflexivity.
Defined.

(** ** The history as a window on the appended records *)

Lemma newest_all : forall m l, (length l <= m)%nat -> newest m l = l.
Proof.
  intros m l H. unfold newest.
  replace (length l - m)%nat with O by lia. reflexivity.
Qed.

Lemma history_append_max_newest : forall m e h,
  (0 < m)%nat -> (length h <= m)%nat ->
  history_append_max m e h = newest m (h ++ [e]).
Proof.
  intros m e h Hm Hle. unfold history_append_max, newest, pop_front.
  rewrite length_app. simpl length.
  destruct (m <=? length h)%nat eqn:E.
  - apply Nat.leb_le in E.
    replace (length h + 1 - m)%nat with 1%nat by lia.
    destruct h as [|x h]; [simpl in E; lia | reflexivity].
  - apply Nat.leb_gt in E.
    replace (length h + 1 - m)%nat with O by lia. reflexivity.
Qed.

Lemma newest_app_newest : forall m a b,
  newest m (newest m a ++ b) = newest m (a ++ b).
Proof.
  intros m a b. destruct (Nat.le_gt_cases (length a) m) as [Hle | Hgt].
  - rewrite (newest_all m a Hle). reflexivity.
  - unfold newest. rewrite !length_app, length_skipn.
    replace (length a - (length a - m) + length b - m)%nat
      with (length b) by lia.
    replace (length a + length b - m)%nat
      with (length b + (length a - m))%nat by lia.
    rewrite <- skipn_skipn. f_equal.
    rewrite skipn_app.
    replace (length a - m - length a)%nat with O by lia. reflexivity.
Qed.

Lemma history_appends_max_newest : forall m es h,
  (0 < m)%nat -> (length h <= m)%nat ->
  history_appends_max m es h = newest m (h ++ es).
Proof.
  intros m es. unfold history_appends_max.
  induction es as [|e es IH]; intros h Hm Hle; cbn [fold_left].
  - rewrite app_nil_r, newest_all by exact Hle. reflexivity.
  - rewrite IH; [| exact Hm | apply history_append_max_length; assumption].
    rewrite history_append_max_newest by assumption.
    rewrite newest_app_newest, <- app_assoc. reflexivity.
Qed.

(** X3. After any sequence of appends the history holds exactly the newest
    [HISTORY_MAX] of the records it was given (all of them while there are
    fewer), oldest first: eviction by size never reorders and never drops a
    record that is among the newest 2000. *)
Theorem history_holds_newest_records :
  forall (es h : list LightningEvent),
    (length h <= HISTORY_MAX)%nat ->
    history_appends es h = skipn (length (h ++ es) - HISTORY_MAX) (h ++ es)
    /\ length (history_appends es h) = Nat.min (length (h ++ es)) HISTORY_MAX
    /\ (exists older, h ++ es = older ++ history_appends es h).
Proof.
  intros es h Hle.
  assert (E : history_appends es h = newest HISTORY_MAX (h ++ es)).
  { apply history_appends_max_newest; [unfold HISTORY_MAX; lia | exact Hle]. }
  rewrite E. unfold newest. split; [reflexivity |]. split.
  - rewrite length_skipn. lia.
  - exists (firstn (length (h ++ es) - HISTORY_MAX) (h ++ es)).
    symmetry. apply firstn_skipn.
Qed.

Lemma history_holds_newest_records_witness :
  let a := mkEvent 10 1 100 8 true in
  let b := mkEvent 20 5 200 8 false in
  history_appends [b; a; b] [a] = [a; b; a; b]
  /\ length (history_appends [b; a; b] [a]) = 4%nat.
Proof.
  intros a b.
  assert (H1 : (length [a] <= HISTORY_MAX)%nat) by (unfold HISTORY_MAX; simpl; lia).
  destruct (history_holds_newest_records [b; a; b] [a] H1) as [E [L _]].
  split; [rewrite E; reflexivity | rewrite L; reflexivity].
Defined.

(** ** The range query on any history *)



Lemma elements_wanted_widen : forall c1 c2 l,
  c2 <= c1 ->
  exists older, elements_wanted c2 l = elements_wanted c1 l ++ older.
Proof.
  intros c1 c2 l Hc. induction l as [|e l IH]; cbn [elements_wanted].
  - exists []. reflexivity.
  - destruct (ts e <? c1) eqn:E1.
    + eexists. reflexivity.
    + apply Z.ltb_ge in E1.
      replace (ts e <? c2) with false by (symmetry; apply Z.ltb_ge; lia).
      destruct IH as [older Ho]. exists older. rewrite Ho. reflexivity.
Qed.

(** X5. Asking [handleEvents] for a longer window never changes the part of
    the answer a shorter window gives: the longer answer is the shorter one
    with older events added at its end. *)
Theorem handleEvents_longer_window_extends :
  forall (r1 r2 : Request) (now : Z) (s : State),
    handleEvents_sinceSec r1 <= handleEvents_sinceSec r2 ->
    exists older,
      fst (handleEvents r2 now s) = fst (handleEvents r1 now s) ++ older.
Proof.
  intros r1 r2 now s H. unfold handleEvents. cbn [fst].
  rewrite !events_from_back_firstn.
  destruct (elements_wanted_widen (now - handleEvents_sinceSec r1)
              (now - handleEvents_sinceSec r2) (rev (history s)))
    as [older Ho]; [lia |].
  rewrite Ho, firstn_app. eexists. reflexivity.
Qed.

Lemma handleEvents_longer_window_extends_witness :
  let s := mkState [mkEvent 6000 10 1 8 true; mkEvent 9990 12 2 8 true;
                    mkEvent 10000 14 3 8 true]
             14 3 10000 0 true false false 0 (setLedsForDistance 14) in
  let short := mkRequest (Some "60"%string) None in
  let long := mkRequest (Some "7200"%string) None in
  exists older,
    fst (handleEvents long 10000 s) = fst (handleEvents short 10000 s) ++ older.
Proof.
  intros s short long.
  apply (handleEvents_longer_window_extends short long 10000 s).
  vm_compute. discriminate.
Defined.

(** ** The statistics against the range query and against order *)

Lemma elements_wanted_length : forall cutoff l,
  (length (elements_wanted cutoff l)
   <= length (filter (in_window cutoff) l))%nat.
Proof.
  intros cutoff l. induction l as [|e l IH]; cbn [elements_wanted filter].
  - apply Nat.le_refl.
  - unfold in_window at 1. destruct (ts e <? cutoff) eqn:E.
    + apply Nat.le_0_l.
    + apply Z.ltb_ge in E.
      replace (cutoff <=? ts e) with true by (symmetry; apply Z.leb_le; lia).
      simpl. lia.
Qed.




Lemma filter_length_permutation :
  forall (f : LightningEvent -> bool) (h h' : list LightningEvent),
    Permutation h h' -> length (filter f h) = length (filter f h').
Proof.
  intros f h h' P. induction P as [| x l l' _ IH | x y l | l l' l'' _ IH1 _ IH2].
  - reflexivity.
  - simpl. destruct (f x); simpl; rewrite IH; reflexivity.
  - simpl. destruct (f x), (f y); reflexivity.
  - rewrite IH1. exact IH2.
Qed.

Lemma window_entries_permutation : forall cutoff h h',
  Permutation h h' ->
  Permutation (window_entries cutoff h) (window_entries cutoff h').
Proof.
  intros cutoff h h' P. unfold window_entries.
  induction P as [| x l l' _ IH | x y l | l l' l'' _ IH1 _ IH2].
  - constructor.
  - simpl. destruct (in_window cutoff x); [constructor |]; exact IH.
  - simpl. destruct (in_window cutoff x), (in_window cutoff y);
      try apply Permutation_refl. apply perm_swap.
  - eapply Permutation_trans; eassumption.
Qed.

Lemma tally_permutation : forall cutoff h h',
  Permutation h h' -> tally cutoff h = tally cutoff h'.
Proof.
  intros cutoff h h' P.
  pose proof (window_entries_permutation cutoff h h' P) as Pw.
  unfold tally, bucket_count.
  rewrite (Permutation_length Pw).
  rewrite !(filter_length_permutation _ _ _ Pw). reflexivity.
Qed.

(** X7. The statistics do not depend on the order of the history: two
    histories with the same entries in any order give the same document.
    Unlike the trim and the range query, [handleStats] needs no time
    order. *)
Theorem handleStats_ignores_order :
  forall (r : Request) (now : Z) (s s' : State),
    Permutation (history s) (history s') ->
    Z.of_nat (length (history s)) < 2 ^ 32 ->
    fst (handleStats r now s) = fst (handleStats r now s').
Proof.
  intros r now s s' P Hlen.
  assert (Hlen' : Z.of_nat (length (history s')) < 2 ^ 32)
    by (rewrite <- (Permutation_length P); exact Hlen).
  unfold handleStats. cbn [fst].
  rewrite !stats_scan_tally by assumption.
  rewrite (tally_permutation _ _ _ P). reflexivity.
Qed.

Lemma handleStats_ignores_order_witness :
  let a := mkEvent 9000 63 2 4 true in
  let b := mkEvent 9500 5 3 8 true in
  let s := mkState [a; b] 5 3 9500 0 true false false 0 all_off in
  let s' := mkState [b; a] 63 2 9000 0 true false false 0 all_off in
  fst (handleStats (mkRequest None None) 10000 s)
  = fst (handleStats (mkRequest None None) 10000 s').
Proof.
  intros a b s s'.
  apply handleStats_ignores_order.
  - simpl. apply perm_swap.
  - simpl. lia.
Defined.

Lemma window_length_widen : forall c1 c2 (f : LightningEvent -> bool) h,
  c2 <= c1 ->
  (length (filter f (window_entries c1 h))
   <= length (filter f (window_entries c2 h)))%nat.
Proof.
  intros c1 c2 f h Hc. unfold window_entries.
  induction h as [|e h IH]; [apply Nat.le_refl |].
  cbn [filter].
  destruct (in_window c1 e) eqn:E1; destruct (in_window c2 e) eqn:E2.
  - cbn [filter]. destruct (f e); cbn [length]; lia.
  - unfold in_window in E1, E2. apply Z.leb_le in E1. apply Z.leb_gt in E2. lia.
  - cbn [filter]. destruct (f e); cbn [length]; lia.
  - exact IH.
Qed.

(** X8. A longer statistics window never counts less: the total and each of
    the four buckets for [range=day] are at least those for any other
    [range] at the same moment. *)
Theorem handleStats_day_covers_hour :
  forall (rd rh : Request) (now : Z) (s : State),
    Z.of_nat (length (history s)) < 2 ^ 32 ->
    arg_range rd = Some "day"%string ->
    let day := fst (handleStats rd now s) in
    let hour := fst (handleStats rh now s) in
    count hour <= count day
    /\ near_le_5km hour <= near_le_5km day
    /\ mid_6_15km hour <= mid_6_15km day
    /\ far_gt_15km hour <= far_gt_15km day
    /\ out_of_range hour <= out_of_range day.
Proof.
  intros rd rh now s Hlen Hd day hour.
  assert (Hw : handleStats_sinceSec rh <= handleStats_sinceSec rd).
  { unfold handleStats_sinceSec. rewrite Hd. simpl.
    destruct (String.eqb _ _); lia. }
  unfold day, hour, handleStats.
  cbn [fst count near_le_5km mid_6_15km far_gt_15km out_of_range].
  rewrite !stats_scan_tally by exact Hlen.
  unfold tally, bucket_count. cbn [c_cnt c_near c_mid c_far c_oor].
  assert (Hc : now - handleStats_sinceSec rd <= now - handleStats_sinceSec rh)
    by lia.
  repeat split; try (apply Nat2Z.inj_le; apply window_length_widen; exact Hc).
  pose proof (window_length_widen _ _ (fun _ => true) (history s) Hc) as H.
  rewrite !filter_all_true in H by (apply Forall_forall; reflexivity).
  apply Nat2Z.inj_le. exact H.
Qed.

Lemma handleStats_day_covers_hour_witness :
  let s := mkState [mkEvent 100 3 1 8 true; mkEvent 9000 63 2 4 true;
                    mkEvent 10000 16 5 8 true]
             16 5 10000 0 true false false 0 all_off in
  count (fst (handleStats (mkRequest None (Some "hour"%string)) 10000 s))
  <= count (fst (handleStats (mkRequest None (Some "day"%string)) 10000 s)).
Proof.
  intros s.
  assert (Hlen : Z.of_nat (length (history s)) < 2 ^ 32) by (simpl; lia).
  destruct (handleStats_day_covers_hour
              (mkRequest None (Some "day"%string))
              (mkRequest None (Some "hour"%string)) 10000 s Hlen eq_refl)
    as [H _].
  exact H.
Defined.

(** ** Invariants of the firmware run *)

Lemma step_leds_follow_lastDistance : forall s x,
  leds s = setLedsForDistance (lastDistance s) ->
  leds (step s x) = setLedsForDistance (lastDistance (step s x)).
Proof.
  intros s [env |] H; [| exact H].
  cbn [step]. unfold loop, loop_poll, loop_irq, loop_irq_branch, loop_trim.
  destruct (irq_observed env s); [destruct (env_intSrc env =? 0) |];
    match goal with
    | |- context [poll_due env ?m] =>
        destruct (poll_due env m); [destruct (0 <? lastEvent m) |]
    end; cbn; try exact H; reflexivity.
Qed.

(** X9. In every state the firmware reaches after [setup], the four LED
    pins show the pattern of [lastDistance]; so the [l1]..[l4] fields of
    [handleLive] are always the pattern of its [last_distance_km]. *)
Theorem leds_always_show_lastDistance :
  forall (started : bool) (xs : list Step) (localIP : string) (millis : Z),
    let s := run (initial_state started) xs in
    let live := fst (handleLive localIP millis s) in
    leds s = setLedsForDistance (lastDistance s)
    /\ mkLeds (live_l1 live) (live_l2 live) (live_l3 live) (live_l4 live)
       = setLedsForDistance (last_distance_km live).
Proof.
  intros started xs localIP millis s live.
  assert (H : leds s = setLedsForDistance (lastDistance s)).
  { unfold s, run. generalize (initial_state started) (eq_refl :
      leds (initial_state started)
      = setLedsForDistance (lastDistance (initial_state started))).
    induction xs as [|x xs IH]; intros s0 H0; cbn [fold_left].
    - exact H0.
    - apply IH. apply step_leds_follow_lastDistance. exact H0. }
  split; [exact H |].
  unfold live, handleLive. cbn. rewrite <- H. destruct (leds s). reflexivity.
Qed.

Lemma Forall_trim : forall (P : LightningEvent -> Prop) cutoff h,
  Forall P h -> Forall P (trimHistoryOlderThan cutoff h).
Proof.
  intros P cutoff h H. destruct (trim_front_run cutoff h) as [d [Hd _]].
  rewrite Hd in H. apply Forall_app in H. tauto.
Qed.

Lemma Forall_history_append : forall (P : LightningEvent -> Prop) e h,
  Forall P h -> P e -> Forall P (history_append e h).
Proof.
  intros P e h H He. unfold history_append, history_append_max, pop_front.
  apply Forall_app. split; [| constructor; [exact He | constructor]].
  destruct (HISTORY_MAX <=? length h)%nat; [| exact H].
  destruct h as [|x h]; [constructor |]. inversion H; assumption.
Qed.

Lemma to_uint32_range : forall x, is_uint32 (to_uint32 x).
Proof. intros x. unfold to_uint32, is_uint32. apply Z.mod_pos_bound. lia. Qed.

(** The typed part of the state: what every pass re-establishes. *)
Lemma step_keeps_types : forall s x,
  sensor_code_ok x ->
  Forall record_ok (history s) /\ is_uint8 (lastEvent s) ->
  Forall record_ok (history (step s x)) /\ is_uint8 (lastEvent (step s x)).
Proof.
  intros s [env |] Hx [Hh He]; [| split; assumption].
  cbn [step sensor_code_ok] in *.
  assert (Hmid : Forall record_ok (history (loop_irq env s))
                 /\ is_uint8 (lastEvent (loop_irq env s))).
  { unfold loop_irq, loop_irq_branch.
    destruct (irq_observed env s).
    - destruct (env_intSrc env =? 0) eqn:Ez; cbn.
      + split; [apply Forall_trim; exact Hh | apply to_uint8_range].
      + split; [| apply to_uint8_range].
        apply Forall_history_append; [apply Forall_trim; exact Hh |].
        unfold record_ok, irq_record. cbn.
        split; [apply to_uint8_range |]. split; [apply to_uint32_range |].
        rewrite (to_uint8_id _ Hx). apply Z.eqb_neq in Ez.
        unfold is_uint8 in Hx. lia.
    - cbn. split; [apply Forall_trim; exact Hh | exact He]. }
  destruct Hmid as [Hmh Hme].
  unfold loop, loop_poll.
  destruct (poll_due env (loop_irq env s)); [| split; assumption].
  destruct (0 <? lastEvent (loop_irq env s)) eqn:Ep; [| split; assumption].
  cbn. split; [| unfold is_uint8; lia].
  apply Forall_history_append; [exact Hmh |].
  unfold record_ok, poll_record. cbn.
  split; [apply to_uint8_range |]. split; [apply to_uint32_range |].
  apply Z.ltb_lt in Ep. unfold is_uint8 in Hme. lia.
Qed.

(** X10. While the sensor driver reports 8-bit interrupt sources, every
    record the history ever holds has a distance of 0..255, an energy below
    2^32 and a nonzero event code of 1..255: no record stands for "no
    event", from either capture path. *)
Theorem history_records_are_events :
  forall (started : bool) (xs : list Step),
    Forall sensor_code_ok xs ->
    Forall record_ok (history (run (initial_state started) xs))
    /\ is_uint8 (lastEvent (run (initial_state started) xs)).
Proof.
  intros started xs Hxs. unfold run.
  assert (H0 : Forall record_ok (history (initial_state started))
               /\ is_uint8 (lastEvent (initial_state started))).
  { split; [constructor | unfold is_uint8; simpl; lia]. }
  revert H0. generalize (initial_state started).
  induction Hxs as [|x xs Hx _ IH]; intros s0 H0; cbn [fold_left].
  - exact H0.
  - apply IH. apply step_keeps_types; assumption.
Qed.

Lemma history_records_are_events_witness :
  let xs := [Interrupt; Cycle (mkEnv 1761393845 false 4 10 5000 20000 20001 12 6000)] in
  Forall record_ok (history (run (initial_state true) xs))
  /\ map event (history (run (initial_state true) xs)) = [4; 4].
Proof.
  intros xs.
  assert (Hxs : Forall sensor_code_ok xs).
  { unfold xs. constructor; [exact I |].
    constructor; [unfold sensor_code_ok, is_uint8; simpl; lia | constructor]. }
  destruct (history_records_are_events true xs Hxs) as [H _].
  split; [exact H | reflexivity].
Defined.

Lemma StronglySorted_app_r : forall (A : Type) (R : A -> A -> Prop) a b,
  StronglySorted R (a ++ b) -> StronglySorted R b.
Proof.
  intros A R a b. induction a as [|x a IH]; simpl; intros H.
  - exact H.
  - inversion H; subst. apply IH. assumption.
Qed.

Lemma ordered_trim : forall cutoff h,
  StronglySorted ts_le h -> StronglySorted ts_le (trimHistoryOlderThan cutoff h).
Proof.
  intros cutoff h H. destruct (trim_front_run cutoff h) as [d [Hd _]].
  rewrite Hd in H. eapply StronglySorted_app_r. exact H.
Qed.

Lemma ordered_history_append : forall e h,
  StronglySorted ts_le h -> not_after (ts e) h ->
  StronglySorted ts_le (history_append e h).
Proof.
  intros e h Hs Hn. unfold history_append, history_append_max, pop_front.
  apply StronglySorted_snoc.
  - destruct (HISTORY_MAX <=? length h)%nat; [| exact Hs].
    destruct h as [|x h]; [constructor |]. inversion Hs; assumption.
  - unfold not_after in Hn.
    destruct (HISTORY_MAX <=? length h)%nat; [| exact Hn].
    destruct h as [|x h]; [constructor |]. inversion Hn; assumption.
Qed.

Lemma not_after_later : forall t t' h,
  t <= t' -> not_after t h -> not_after t' h.
Proof.
  intros t t' h Ht H. unfold not_after in *.
  eapply Forall_impl; [| exact H]. intros e He. simpl in He. lia.
Qed.

Lemma loop_keeps_order : forall env s t,
  t <= env_now env ->
  StronglySorted ts_le (history s) -> not_after t (history s) ->
  StronglySorted ts_le (history (loop env s))
  /\ not_after (env_now env) (history (loop env s)).
Proof.
  intros env s t Ht Hs Hn.
  assert (Hn' : not_after (env_now env) (history s))
    by (eapply not_after_later; eassumption).
  assert (Hmid : StronglySorted ts_le (history (loop_irq env s))
                 /\ not_after (env_now env) (history (loop_irq env s))).
  { unfold loop_irq, loop_irq_branch.
    destruct (irq_observed env s);
      [destruct (env_intSrc env =? 0) |]; cbn;
      try (split; [apply ordered_trim; exact Hs
                  | apply Forall_trim; exact Hn']).
    split.
    - apply ordered_history_append; [apply ordered_trim; exact Hs |].
      apply Forall_trim. exact Hn'.
    - apply Forall_history_append; [apply Forall_trim; exact Hn' |].
      simpl. lia. }
  destruct Hmid as [Hms Hmn].
  unfold loop, loop_poll.
  destruct (poll_due env (loop_irq env s)); [| split; assumption].
  destruct (0 <? lastEvent (loop_irq env s)); [| split; assumption].
  cbn. split.
  - apply ordered_history_append; assumption.
  - apply Forall_history_append; [exact Hmn | simpl; lia].
Qed.

(** X11. While the clock readings of successive passes never go back,
    [loop] keeps the history in non-decreasing timestamp order: the order
    that [trimHistoryOlderThan] and [handleEvents] rely on holds in every
    state of the run. *)
Theorem run_keeps_history_time_ordered :
  forall (s : State) (t : Z) (xs : list Step),
    time_ordered (history s) ->
    not_after t (history s) ->
    clock_monotone t xs ->
    time_ordered (history (run s xs)).
Proof.
  intros s t xs Hs Hn Hc.
  apply StronglySorted_Sorted.
  apply time_ordered_strongly in Hs.
  unfold run. revert s t Hs Hn Hc.
  induction xs as [|x xs IH]; intros s t Hs Hn Hc; cbn [fold_left].
  - exact Hs.
  - destruct x as [env |]; cbn [clock_monotone step] in *.
    + destruct Hc as [Ht Hc].
      destruct (loop_keeps_order env s t Ht Hs Hn) as [Hs' Hn'].
      eapply IH; eassumption.
    + eapply IH; eassumption.
Qed.

Lemma run_keeps_history_time_ordered_witness :
  let xs := [Interrupt; Cycle (mkEnv 1000 false 8 10 500 20000 20001 12 600);
             Cycle (mkEnv 1000 false 0 0 0 20500 20500 0 0);
             Interrupt; Cycle (mkEnv 1007 false 1 14 20 31000 31001 14 25)] in
  time_ordered (history (run (initial_state true) xs))
  /\ map ts (history (run (initial_state true) xs)) = [1000; 1000; 1007; 1007].
Proof.
  intros xs. split; [| reflexivity].
  apply (run_keeps_history_time_ordered (initial_state true) 0 xs).
  - constructor.
  - constructor.
  - unfold xs. simpl. lia.
Defined.

(** ** Retention after a pass *)

Lemma trim_sorted_all_fresh : forall cutoff h,
  time_ordered h ->
  Forall (fun e => cutoff <= ts e) (trimHistoryOlderThan cutoff h).
Proof.
  intros cutoff h Hs. rewrite (trim_sorted_is_filter cutoff h Hs).
  unfold window_entries, in_window. apply Forall_forall. intros e He.
  apply filter_In in He. destruct He as [_ He]. apply Z.leb_le. exact He.
Qed.

Lemma loop_history_within_retention : forall env s,
  time_ordered (history s) ->
  Forall (fun e => env_now env - 24 * 3600 <= ts e) (history (loop env s)).
Proof.
  intros env s Hs.
  pose proof (trim_sorted_all_fresh (env_now env - 24 * 3600) (history s) Hs)
    as Ht.
  assert (Hmid : Forall (fun e => env_now env - 24 * 3600 <= ts e)
                   (history (loop_irq env s))).
  { unfold loop_irq, loop_irq_branch.
    destruct (irq_observed env s);
      [destruct (env_intSrc env =? 0) |]; cbn; try exact Ht.
    apply Forall_history_append; [exact Ht | simpl; lia]. }
  unfold loop, loop_poll.
  destruct (poll_due env (loop_irq env s)); [| exact Hmid].
  destruct (0 <? lastEvent (loop_irq env s)); [| exact Hmid].
  cbn. apply Forall_history_append; [exact Hmid | simpl; lia].
Qed.

(** X12. A pass of [loop] over a time-ordered history leaves no entry older
    than 24 hours before the clock reading of the pass. *)
Theorem loop_leaves_no_entry_older_than_24h :
  forall (env : CycleEnv) (s : State),
    time_ordered (history s) ->
    Forall (fun e => env_now env - 86400 <= ts e) (history (loop env s)).
Proof.
  intros env s Hs. apply (loop_history_within_retention env s Hs).
Qed.

(** The retention scenario run through [loop]: entries at t=0, 100 and 90000,
    a pass at 90001 with no interrupt. *)
Lemma loop_leaves_no_entry_older_than_24h_witness :
  let s := mkState [mkEvent 0 3 0 8 true; mkEvent 100 63 0 8 true;
                    mkEvent 90000 10 0 8 true]
             10 0 90000 0 true false false 0 (setLedsForDistance 10) in
  let env := mkEnv 90001 false 0 0 0 500 500 0 0 in
  Forall (fun e => 90001 - 86400 <= ts e) (history (loop env s))
  /\ history (loop env s) = [mkEvent 90000 10 0 8 true].
Proof.
  intros s env. split; [| reflexivity].
  apply (loop_leaves_no_entry_older_than_24h env s).
  unfold s, time_ordered. simpl.
  repeat (constructor; unfold ts_le; simpl; try lia).
Defined.



(** ** Records per interrupt event *)

Lemma history_append_length_step : forall e h,
  (length (history_append e h) <= S (length h))%nat.
Proof.
  intros e h. unfold history_append, history_append_max, pop_front.
  rewrite length_app. cbn [length].
  destruct (HISTORY_MAX <=? length h)%nat; [| lia].
  destruct h; cbn [tl length]; lia.
Qed.

Lemma loop_budget : forall env s,
  (length (history (loop env s)) + pending (loop env s)
   <= length (history s) + pending s
      + 2 * (if records_event env s then 1 else 0))%nat.
Proof.
  intros env s.
  pose proof (trim_length (env_now env - 24 * 3600) (history s)) as Ht.
  pose proof (trim_length (env_now env - 86400) (history s)) as Ht'.
  assert (Hmid : (length (history (loop_irq env s)) + pending (loop_irq env s)
                  <= length (history s) + pending s
                     + 2 * (if records_event env s then 1 else 0))%nat).
  { unfold loop_irq, loop_irq_branch, records_event.
    destruct (irq_observed env s); cbn [andb].
    - destruct (env_intSrc env =? 0) eqn:Ez; cbn [negb].
      + apply Z.eqb_eq in Ez. rewrite Ez. unfold pending at 1. cbn. lia.
      + unfold pending at 1. cbn [lastEvent history].
        pose proof (history_append_length_step (irq_record env (loop_trim env s))
                      (history (loop_trim env s))) as Ha.
        cbn [loop_trim history] in Ha.
        destruct (0 <? to_uint8 (env_intSrc env)); cbn [loop_trim history]; lia.
    - unfold pending. cbn. lia. }
  unfold loop, loop_poll.
  destruct (poll_due env (loop_irq env s)); [| exact Hmid].
  destruct (0 <? lastEvent (loop_irq env s)) eqn:Ep; [| exact Hmid].
  unfold pending at 1. cbn [lastEvent history].
  pose proof (history_append_length_step (poll_record env (loop_irq env s))
                (history (loop_irq env s))) as Ha.
  unfold pending in Hmid at 1. rewrite Ep in Hmid.
  replace (0 <? 0) with false by reflexivity. lia.
Qed.

Lemma run_budget : forall xs s,
  (length (history (run s xs)) + pending (run s xs)
   <= length (history s) + pending s + 2 * interrupt_events s xs)%nat.
Proof.
  unfold run. induction xs as [|x xs IH]; intros s;
    cbn [fold_left interrupt_events].
  - lia.
  - specialize (IH (step s x)).
    destruct x as [env |]; cbn [step] in *.
    + pose proof (loop_budget env s). lia.
    + unfold pending in *. cbn in *. lia.
Qed.

(** X14. Over any run from start-up, the history never holds more than two
    records per recorded interrupt event (a pass that observed the flag and
    read a nonzero source): one from the interrupt branch and at most one
    poll confirmation. Passes without such an event add nothing. *)
Theorem history_at_most_two_records_per_event :
  forall (started : bool) (xs : list Step),
    (length (history (run (initial_state started) xs))
     <= 2 * interrupt_events (initial_state started) xs)%nat.
Proof.
  intros started xs.
  pose proof (run_budget xs (initial_state started)) as H.
  unfold pending at 2 in H. cbn in H. lia.
Qed.

(** ** Passes without an interrupt *)

(** X15. A pass that observes no interrupt, and has no source pending or
    no poll due, touches nothing but the stale front of the history (and
    the trigger flag, which it clears): status fields, LEDs and [tLastPoll]
    stay as they are. *)
Theorem loop_idle_pass_only_trims :
  forall (env : CycleEnv) (s : State),
    irq_observed env s = false ->
    lastEvent s = 0 \/ poll_due env s = false ->
    loop env s
    = mkState (trimHistoryOlderThan (env_now env - 86400) (history s))
        (lastDistance s) (lastEnergy s) (lastEventTs s) (lastEvent s)
        (AS3935_started s) false false (tLastPoll s) (leds s).
Proof.
  intros env s Hobs Hidle.
  assert (Hflag : irqFlag s = false).
  { unfold irq_observed in Hobs. apply orb_false_iff in Hobs. tauto. }
  unfold loop, loop_irq. rewrite Hobs.
  unfold loop_poll, poll_due, loop_trim. cbn. rewrite Hflag.
  destruct Hidle as [Hz | Hnd].
  - rewrite Hz. cbn.
    destruct (10000 <? to_uint32 (env_millis_check env - tLastPoll s));
      reflexivity.
  - unfold poll_due in Hnd. rewrite Hnd. reflexivity.
Qed.

Lemma loop_idle_pass_only_trims_witness :
  let s := mkState [mkEvent 100 3 0 8 true; mkEvent 90000 10 0 8 true]
             10 0 90000 0 true true false 0 (setLedsForDistance 10) in
  let env := mkEnv 90001 false 0 0 0 50000 50000 0 0 in
  history (loop env s) = [mkEvent 90000 10 0 8 true]
  /\ lastDistance (loop env s) = 10
  /\ leds (loop env s) = setLedsForDistance 10.
Proof.
  intros s env.
  rewrite (loop_idle_pass_only_trims env s eq_refl (or_introl eq_refl)).
  repeat split.
Defined.

Lemma quiet_step_keeps_idle : forall s x,
  quiet_step x -> lastEvent s = 0 -> irqFlag s = false ->
  lastEvent (step s x) = 0 /\ irqFlag (step s x) = false
  /\ lastDistance (step s x) = lastDistance s
  /\ lastEnergy (step s x) = lastEnergy s
  /\ lastEventTs (step s x) = lastEventTs s
  /\ leds (step s x) = leds s
  /\ exists dropped, history s = dropped ++ history (step s x).
Proof.
  intros s [env |] Hq Hz Hf; [| destruct Hq].
  cbn [quiet_step step] in *.
  assert (Hobs : irq_observed env s = false)
    by (unfold irq_observed; rewrite Hf, Hq; reflexivity).
  assert (E : loop env s
    = mkState (trimHistoryOlderThan (env_now env - 24 * 3600) (history s))
        (lastDistance s) (lastEnergy s) (lastEventTs s) (lastEvent s)
        (AS3935_started s) false false (tLastPoll s) (leds s)).
  { unfold loop, loop_irq. rewrite Hobs.
    unfold loop_poll, loop_trim. cbn. rewrite Hz, Hf. cbn.
    destruct (poll_due env _); reflexivity. }
  rewrite E. cbn. repeat split; try assumption.
  destruct (trim_front_run (env_now env - 24 * 3600) (history s)) as [d [Hd _]].
  exists d. exact Hd.
Qed.

(** X16. Once no source is pending and the flag is clear, passes without a
    new interrupt never add a record, however many there are and however
    much time passes: the history only loses entries at its front, and
    [lastDistance], [lastEnergy], [lastEventTs] and the LEDs keep their
    values. A confirmation is appended at most once per event. *)
Theorem run_without_interrupt_never_appends :
  forall (s : State) (xs : list Step),
    lastEvent s = 0 ->
    irqFlag s = false ->
    Forall quiet_step xs ->
    (exists dropped, history s = dropped ++ history (run s xs))
    /\ lastEvent (run s xs) = 0
    /\ lastDistance (run s xs) = lastDistance s
    /\ lastEnergy (run s xs) = lastEnergy s
    /\ lastEventTs (run s xs) = lastEventTs s
    /\ leds (run s xs) = leds s.
Proof.
  intros s xs Hz Hf Hq. unfold run. revert s Hz Hf.
  induction Hq as [|x xs Hx _ IH]; intros s Hz Hf; cbn [fold_left].
  - repeat split; try assumption. exists []. reflexivity.
  - destruct (quiet_step_keeps_idle s x Hx Hz Hf)
      as [Hz' [Hf' [Hd [He [Ht [Hl [d1 Hh]]]]]]].
    destruct (IH (step s x) Hz' Hf') as [[d2 Hh2] [Rz [Rd [Re [Rt Rl]]]]].
    split; [| repeat split; congruence].
    exists (d1 ++ d2). rewrite <- app_assoc, <- Hh2. exact Hh.
Qed.

(** After a confirmed event at 12:04:05, three more passes over 25 s with no
    interrupt: the two records stay two. *)
Lemma run_without_interrupt_never_appends_witness :
  let s := loop (mkEnv 1761393845 false 8 10 5000 20000 20001 12 6000)
             (onAs3935Interrupt (initial_state true)) in
  let xs := [Cycle (mkEnv 1761393850 false 0 0 0 25000 25000 14 1);
             Cycle (mkEnv 1761393860 false 0 0 0 35000 35000 14 1);
             Cycle (mkEnv 1761393870 false 0 0 0 45000 45000 14 1)] in
  length (history s) = 2%nat
  /\ history (run s xs) = history s
  /\ lastEvent (run s xs) = 0.
Proof.
  intros s xs.
  assert (Hq : Forall quiet_step xs)
    by (unfold xs; repeat constructor).
  destruct (run_without_interrupt_never_appends s xs eq_refl eq_refl Hq)
    as [_ [Hz _]].
  split; [reflexivity | split; [reflexivity | exact Hz]].
Defined.

(** ** The interrupt flag *)

Lemma onAs3935Interrupt_twice : forall s,
  onAs3935Interrupt (onAs3935Interrupt s) = onAs3935Interrupt s.
Proof. intros s. reflexivity. Qed.

Lemma run_interrupts : forall n s,
  run s (repeat Interrupt (S n)) = onAs3935Interrupt s.
Proof.
  unfold run. induction n as [|n IH]; intros s.
  - reflexivity.
  - change (repeat Interrupt (S (S n))) with (Interrupt :: repeat Interrupt (S n)).
    cbn [fold_left step]. rewrite IH. apply onAs3935Interrupt_twice.
Qed.

Lemma loop_appends_at_most_two : forall env s,
  (length (history (loop env s)) <= length (history s) + 2)%nat.
Proof.
  intros env s.
  pose proof (trim_length (env_now env - 24 * 3600) (history s)) as Ht.
  assert (Hmid : (length (history (loop_irq env s))
                  <= length (history s) + 1)%nat).
  { unfold loop_irq, loop_irq_branch.
    destruct (irq_observed env s);
      [destruct (env_intSrc env =? 0) |]; cbn [history loop_trim]; try lia.
    pose proof (history_append_length_step (irq_record env (loop_trim env s))
                  (trimHistoryOlderThan (env_now env - 24 * 3600) (history s))).
    lia. }
  unfold loop, loop_poll.
  destruct (poll_due env (loop_irq env s)); [| lia].
  destruct (0 <? lastEvent (loop_irq env s)); [| lia].
  cbn [history].
  pose proof (history_append_length_step (poll_record env (loop_irq env s))
                (history (loop_irq env s))).
  lia.
Qed.

(** X17. Interrupts that arrive between two passes are merged: however many
    times the ISR runs before the next pass, that pass leaves the same state
    as after a single interrupt. It takes its snapshot of the flag once
    ([AS3935_irq] is set), and it appends at most two records, one from the
    interrupt branch and one poll confirmation, not one per interrupt. *)
Theorem interrupts_between_passes_coalesce :
  forall (n : nat) (env : CycleEnv) (s : State),
    run s (repeat Interrupt (S n) ++ [Cycle env])
    = run s [Interrupt; Cycle env]
    /\ AS3935_irq (run s (repeat Interrupt (S n) ++ [Cycle env])) = true
    /\ (length (history (run s (repeat Interrupt (S n) ++ [Cycle env])))
        <= length (history s) + 2)%nat.
Proof.
  intros n env s.
  assert (E : run s (repeat Interrupt (S n) ++ [Cycle env])
              = loop env (onAs3935Interrupt s)).
  { unfold run at 1. rewrite fold_left_app.
    fold (run s (repeat Interrupt (S n))). rewrite run_interrupts. reflexivity. }
  split; [rewrite E; reflexivity |]. rewrite E. split.
  - unfold loop, loop_poll, loop_irq, loop_irq_branch, loop_trim.
    destruct (irq_observed env (onAs3935Interrupt s));
      [destruct (env_intSrc env =? 0) |];
      match goal with
      | |- context [poll_due env ?m] =>
          destruct (poll_due env m); [destruct (0 <? lastEvent m) |]
      end; reflexivity.
  - apply (loop_appends_at_most_two env (onAs3935Interrupt s)).
Qed.

(** ** The LED table as a code *)

Ltac each_key H :=
  unfold led_keys in H; cbn [In] in H;
  repeat (destruct H as [H | H]; [subst |]); [.. | destruct H].

Lemma led_value_decreasing : forall a b,
  In a led_keys -> In b led_keys -> a < b ->
  led_value (setLedsForDistance b) < led_value (setLedsForDistance a).
Proof.
  intros a b Ha Hb. each_key Ha; each_key Hb; intros Hlt;
    first [ exfalso; vm_compute in Hlt; discriminate Hlt
          | vm_compute; reflexivity ].
Qed.

(** X18. Over its sixteen keys the LED pattern is a 4-bit count of how near
    the storm is (LED1 the lowest bit): a smaller key distance always gives
    a larger number, from 0 for 63 km up to 15 for 1 km; so two different
    keys never share a pattern, and each of the sixteen patterns belongs to
    exactly one key. *)
Theorem setLedsForDistance_counts_nearness :
  (forall a b, In a led_keys -> In b led_keys -> a < b ->
     led_value (setLedsForDistance b) < led_value (setLedsForDistance a))
  /\ (forall a b, In a led_keys -> In b led_keys ->
        setLedsForDistance a = setLedsForDistance b -> a = b)
  /\ (forall v, 0 <= v < 16 ->
        exists km, In km led_keys /\ led_value (setLedsForDistance km) = v).
Proof.
  split; [exact led_value_decreasing |]. split.
  - intros a b Ha Hb E.
    destruct (Z.lt_trichotomy a b) as [H | [H | H]]; [| exact H |].
    + pose proof (led_value_decreasing a b Ha Hb H) as D. rewrite E in D. lia.
    + pose proof (led_value_decreasing b a Hb Ha H) as D. rewrite E in D. lia.
  - intros v Hv.
    assert (Hcases : v = 0 \/ v = 1 \/ v = 2 \/ v = 3 \/ v = 4 \/ v = 5
                     \/ v = 6 \/ v = 7 \/ v = 8 \/ v = 9 \/ v = 10 \/ v = 11
                     \/ v = 12 \/ v = 13 \/ v = 14 \/ v = 15) by lia.
    repeat (destruct Hcases as [-> | Hcases]);
      [ exists 63 | exists 40 | exists 37 | exists 34 | exists 31 | exists 27
      | exists 24 | exists 20 | exists 17 | exists 14 | exists 12 | exists 10
      | exists 8 | exists 6 | exists 5 | subst v; exists 1 ];
      (split; [pick_key | reflexivity]).
Qed.

Lemma setLedsForDistance_counts_nearness_witness :
  led_value (setLedsForDistance 40) < led_value (setLedsForDistance 5)
  /\ led_value (setLedsForDistance 1) = 15.
Proof.
  destruct setLedsForDistance_counts_nearness as [Hdec _].
  split; [| reflexivity].
  apply (Hdec 5 40); [pick_key | pick_key | lia].
Defined.

(** ** Start-up helpers *)

Lemma shortBlink_loop_facts : forall n onMs offMs,
  is_uint32 onMs -> is_uint32 offMs ->
  total_delay (shortBlink_loop n onMs offMs) = Z.of_nat n * (onMs + offMs)
  /\ length (shortBlink_loop n onMs offMs) = (4 * n)%nat
  /\ (forall before,
        final_level ledPin before (shortBlink_loop n onMs offMs)
        = match n with O => before | S _ => true end)
  /\ (forall pin before, pin <> ledPin ->
        final_level pin before (shortBlink_loop n onMs offMs) = before).
Proof.
  intros n onMs offMs Hon Hoff.
  induction n as [|n [IHd [IHl [IHf IHo]]]].
  - repeat split.
  - cbn [shortBlink_loop total_delay length final_level].
    rewrite (to_uint32_id _ Hon), (to_uint32_id _ Hoff).
    split; [rewrite IHd; lia |]. split; [rewrite IHl; lia |]. split.
    + intros before. rewrite Z.eqb_refl. rewrite IHf. destruct n; reflexivity.
    + intros pin before Hp.
      assert (E : (ledPin =? pin) = false) by (apply Z.eqb_neq; congruence).
      rewrite E. apply IHo. exact Hp.
Qed.

(** X19. [shortBlink(num, onMs, offMs)] with non-negative times blinks the
    on-board LED exactly [num] times: it spends [num * (onMs + offMs)] ms
    in [delay], writes no pin but [ledPin], and leaves that pin HIGH (LED
    off). With [num <= 0] it does nothing at all. *)
Theorem shortBlink_blinks_num_times :
  forall (num onMs offMs : Z),
    is_uint32 onMs -> is_uint32 offMs ->
    let tr := shortBlink num onMs offMs in
    total_delay tr = Z.max 0 num * (onMs + offMs)
    /\ length tr = (4 * Z.to_nat num)%nat
    /\ (forall before,
          final_level ledPin before tr = if 0 <? num then true else before)
    /\ (forall pin before, pin <> ledPin -> final_level pin before tr = before)
    /\ (num <= 0 -> tr = []).
Proof.
  intros num onMs offMs Hon Hoff tr. unfold tr, shortBlink.
  destruct (shortBlink_loop_facts (Z.to_nat num) onMs offMs Hon Hoff)
    as [Hd [Hl [Hf Ho]]].
  split; [rewrite Hd; f_equal; lia |]. split; [exact Hl |]. split; [| split].
  - intros before. rewrite Hf.
    destruct (0 <? num) eqn:E.
    + apply Z.ltb_lt in E. destruct (Z.to_nat num) eqn:En; [lia | reflexivity].
    + apply Z.ltb_ge in E. replace (Z.to_nat num) with O by lia. reflexivity.
  - exact Ho.
  - intros Hle. replace (Z.to_nat num) with O by lia. reflexivity.
Qed.

(** The start-up blinks of [setup]: [shortBlink(2)] with the default 200 ms
    takes 800 ms, [shortBlink(2,1000,1000)] takes 4 s. *)
Lemma shortBlink_blinks_num_times_witness :
  total_delay (shortBlink 2 200 200) = 800
  /\ total_delay (shortBlink 2 1000 1000) = 4000
  /\ shortBlink 0 200 200 = [].
Proof.
  assert (R200 : is_uint32 200) by (unfold is_uint32; lia).
  assert (R1000 : is_uint32 1000) by (unfold is_uint32; lia).
  destruct (shortBlink_blinks_num_times 2 200 200 R200 R200) as [H1 _].
  destruct (shortBlink_blinks_num_times 2 1000 1000 R1000 R1000) as [H2 _].
  destruct (shortBlink_blinks_num_times 0 200 200 R200 R200)
    as [_ [_ [_ [_ H0]]]].
  split; [rewrite H1; reflexivity | split; [rewrite H2; reflexivity |]].
  apply H0. lia.
Defined.

Lemma setupTime_loop_facts : forall left i clock,
  (setupTime_loop left i clock <= left)%nat
  /\ (forall j, (j < setupTime_loop left i clock)%nat ->
        clock (i + j)%nat <= 1600000000)
  /\ ((setupTime_loop left i clock < left)%nat ->
        1600000000 < clock (i + setupTime_loop left i clock)%nat).
Proof.
  induction left as [|left IH]; intros i clock; cbn [setupTime_loop].
  - repeat split; intros; lia.
  - destruct (1600000000 <? clock i) eqn:E.
    + repeat split; try lia.
      intros _. rewrite Nat.add_0_r. apply Z.ltb_lt. exact E.
    + destruct (IH (S i) clock) as [Hle [Hbad Hgood]].
      apply Z.ltb_ge in E. repeat split.
      * lia.
      * intros [|j] Hj.
        -- rewrite Nat.add_0_r. exact E.
        -- replace (i + S j)%nat with (S i + j)%nat by lia. apply Hbad. lia.
      * intros Hlt.
        replace (i + S (setupTime_loop left (S i) clock))%nat
          with (S i + setupTime_loop left (S i) clock)%nat by lia.
        apply Hgood. lia.
Qed.

(** X20. [setupTime] waits for the clock in steps of 500 ms and gives up
    after ten: it returns at the first reading above 1600000000, having
    seen only implausible readings before, and after at most 5 s it
    returns whether or not the clock was ever set. *)
Theorem setupTime_waits_at_most_ten_times :
  forall (clock : nat -> Z),
    let n := setupTime clock in
    (n <= 10)%nat
    /\ 500 * Z.of_nat n <= 5000
    /\ (forall j, (j < n)%nat -> clock j <= 1600000000)
    /\ ((n < 10)%nat -> 1600000000 < clock n).
Proof.
  intros clock n. unfold n, setupTime.
  destruct (setupTime_loop_facts 10 0 clock) as [Hle [Hbad Hgood]].
  split; [exact Hle |]. split; [lia |]. split.
  - intros j Hj. apply (Hbad j Hj).
  - intros Hlt. apply (Hgood Hlt).
Qed.

Lemma setupTime_waits_at_most_ten_times_witness :
  let synced_at_third := fun i : nat => if (i <? 2)%nat then 12 else 1761393845 in
  setupTime synced_at_third = 2%nat
  /\ 1600000000 < synced_at_third 2%nat
  /\ setupTime (fun _ => 0) = 10%nat.
Proof.
  intros clock.
  destruct (setupTime_waits_at_most_ten_times clock) as [_ [_ [_ Hgood]]].
  split; [reflexivity | split; [| reflexivity]].
  apply Hgood. vm_compute. lia.
Defined.

(** ** The poll timer across the 32-bit roll-over of [millis] *)

(** X21. The poll timer is safe against the roll-over of [millis]: when
    [d] ms (fewer than 2^32) have really passed since [tLastPoll] was set,
    the test [millis() - tLastPoll > 10000] is true exactly when
    [d > 10000], also when the 32-bit counter has wrapped in between. *)
Theorem poll_due_survives_millis_rollover :
  forall (env : CycleEnv) (s : State) (d : Z),
    is_uint32 (tLastPoll s) ->
    0 <= d < 2 ^ 32 ->
    env_millis_check env = to_uint32 (tLastPoll s + d) ->
    poll_due env s = (10000 <? d).
Proof.
  intros env s d Ht Hd Hm. unfold poll_due. rewrite Hm.
  unfold to_uint32, is_uint32 in *.
  rewrite Zminus_mod_idemp_l.
  replace (tLastPoll s + d - tLastPoll s) with d by lia.
  rewrite Z.mod_small by lia. reflexivity.
Qed.

(** [tLastPoll] set 5 s before the counter wraps, checked 12 s later. *)
Lemma poll_due_survives_millis_rollover_witness :
  let s := mkState [] 63 0 0 8 true false false (2 ^ 32 - 5000) all_off in
  let env := mkEnv 1761393845 false 0 0 0 7000 7000 10 100 in
  poll_due env s = true.
Proof.
  intros s env.
  rewrite (poll_due_survives_millis_rollover env s 12000).
  - reflexivity.
  - unfold is_uint32. simpl. lia.
  - lia.
  - reflexivity.
Defined.

(** ** Bounded answers *)

(** X22. In every state the firmware reaches after [setup], neither query
    can report more than [HISTORY_MAX] entries: the ["events"] array of
    [handleEvents] has at most 2000 elements and the total of
    [handleStats] is at most 2000, for any request and clock reading. *)
Theorem query_answers_bounded_by_HISTORY_MAX :
  forall (started : bool) (xs : list Step) (r : Request) (now : Z),
    let s := run (initial_state started) xs in
    (length (fst (handleEvents r now s)) <= HISTORY_MAX)%nat
    /\ 0 <= count (fst (handleStats r now s)) <= 2000.
Proof.
  intros started xs r now s.
  assert (Hsz : (length (history s) <= HISTORY_MAX)%nat).
  { apply (run_size_ok xs (initial_state started)).
    unfold size_ok, HISTORY_MAX. simpl. lia. }
  assert (Hfilter : forall cutoff l,
            (length (filter (in_window cutoff) l) <= length l)%nat).
  { intros cutoff l. induction l as [|e l IH]; cbn [filter length]; [lia |].
    destruct (in_window cutoff e); cbn [length]; lia. }
  split.
  - unfold handleEvents. cbn [fst].
    rewrite events_from_back_firstn, length_firstn.
    etransitivity; [apply Nat.le_min_r |].
    etransitivity; [apply elements_wanted_length |].
    etransitivity; [apply Hfilter |].
    rewrite length_rev. exact Hsz.
  - unfold handleStats. cbn [fst count].
    rewrite stats_scan_tally by (unfold HISTORY_MAX in Hsz; lia).
    unfold tally. cbn [c_cnt]. unfold window_entries.
    pose proof (Hfilter (now - handleStats_sinceSec r) (history s)) as Hf.
    unfold HISTORY_MAX in Hsz. lia.
Qed.

(** ** The range query against the size of its document *)



